(** * User management app: schema-driven validation, form controller, CRUD hook

    A shallow embedding of
    - [src/utils/validation.ts]   (validators, router, whole-form validation),
    - [src/config/userSchema.ts]  (the field schema),
    - [src/components/UserForm.tsx] (the form state controller),
    - [src/hooks/useUserCRUD.ts]  (the create operation of the CRUD hook),
    together with the properties of these functions.

    JavaScript strings are sequences of UTF-16 code units; a code unit is a
    number [N], a string is a [list N].  String literals of the source are
    written [lit "..."].  Plain objects used as dictionaries are finite maps
    keyed by strings ([gmap (list N) _]); a lookup reads own properties. *)

From Stdlib Require Import NArith String Ascii Bool Lia.
From stdpp Require Import base option list gmap.

Local Open Scope N_scope.

(** ** JavaScript strings *)

Module JS.

(** A source literal (ASCII) as a sequence of code units. *)
Fixpoint lit (s : string) : list N :=
  match s with
  | EmptyString => []
  | String a s' => N_of_ascii a :: lit s'
  end.

(** ToBoolean on a string: only the empty string is falsy. *)
Definition truthy (s : list N) : bool :=
  match s with
  | [] => false
  | _ :: _ => true
  end.

(** [!s] for a string [s]. *)
Definition not (s : list N) : bool := negb (truthy s).

(** [o || d] where [o] is a string or [undefined]. *)
Definition or_else (o : option (list N)) (d : list N) : list N :=
  match o with
  | Some v => if truthy v then v else d
  | None => d
  end.

(** ECMAScript WhiteSpace and LineTerminator code points: what
    [String.prototype.trim] strips and what [\s] matches. *)
Definition isWhiteSpace (c : N) : bool :=
  (c =? 9) || (c =? 10) || (c =? 11) || (c =? 12) || (c =? 13) ||
  (c =? 32) || (c =? 160) || (c =? 5760) ||
  ((8192 <=? c) && (c <=? 8202)) ||
  (c =? 8232) || (c =? 8233) || (c =? 8239) || (c =? 8287) ||
  (c =? 12288) || (c =? 65279).

Fixpoint trimStart (s : list N) : list N :=
  match s with
  | [] => []
  | c :: s' => if isWhiteSpace c then trimStart s' else s
  end.

Definition trimEnd (s : list N) : list N := rev (trimStart (rev s)).

Definition trim (s : list N) : list N := trimEnd (trimStart s).

End JS.

(** ** Regular expressions

    The patterns of [validation.ts] use character classes, concatenation,
    [+], [?] and [{10,}], and are anchored with [^] and [$] (no flags), so
    [RegExp.prototype.test] decides membership of the whole string in the
    pattern's language.  The matcher below decides it by derivatives. *)

Module Regex.

Inductive regex : Type :=
| Void : regex
| Eps : regex
| Class (p : N -> bool) : regex
| Seq (r1 r2 : regex) : regex
| Alt (r1 r2 : regex) : regex
| Star (r : regex) : regex.

(** [r+], [r?] and [r{n,}]. *)
Definition Many1 (r : regex) : regex := Seq r (Star r).
Definition Opt (r : regex) : regex := Alt r Eps.
Fixpoint AtLeast (n : nat) (r : regex) : regex :=
  match n with
  | O => Star r
  | S n' => Seq r (AtLeast n' r)
  end.

(** A single literal character. *)
Definition Chr (c : N) : regex := Class (N.eqb c).

Fixpoint nullable (r : regex) : bool :=
  match r with
  | Void => false
  | Eps => true
  | Class _ => false
  | Seq r1 r2 => nullable r1 && nullable r2
  | Alt r1 r2 => nullable r1 || nullable r2
  | Star _ => true
  end.

Fixpoint deriv (c : N) (r : regex) : regex :=
  match r with
  | Void => Void
  | Eps => Void
  | Class p => if p c then Eps else Void
  | Seq r1 r2 =>
      if nullable r1
      then Alt (Seq (deriv c r1) r2) (deriv c r2)
      else Seq (deriv c r1) r2
  | Alt r1 r2 => Alt (deriv c r1) (deriv c r2)
  | Star r1 => Seq (deriv c r1) (Star r1)
  end.

(** [/^r$/.test(s)] *)
Fixpoint test (r : regex) (s : list N) : bool :=
  match s with
  | [] => nullable r
  | c :: s' => test (deriv c r) s'
  end.

(** [s.replace(/[cls]/g, '')]: every code unit of the class is dropped. *)
Definition removeAll (cls : N -> bool) (s : list N) : list N :=
  List.filter (fun c => negb (cls c)) s.

(** The language of a pattern. *)
Inductive Matches : regex -> list N -> Prop :=
| MEps : Matches Eps []
| MClass p c : p c = true -> Matches (Class p) [c]
| MSeq r1 r2 s1 s2 :
    Matches r1 s1 -> Matches r2 s2 -> Matches (Seq r1 r2) (s1 ++ s2)
| MAltL r1 r2 s : Matches r1 s -> Matches (Alt r1 r2) s
| MAltR r1 r2 s : Matches r2 s -> Matches (Alt r1 r2) s
| MStarNil r : Matches (Star r) []
| MStarApp r s1 s2 :
    Matches r s1 -> Matches (Star r) s2 -> Matches (Star r) (s1 ++ s2).

End Regex.

(** ** [src/utils/validation.ts] *)

Import JS Regex.

Definition isLower (c : N) : bool := (97 <=? c) && (c <=? 122).
Definition isUpper (c : N) : bool := (65 <=? c) && (c <=? 90).
Definition isDigit (c : N) : bool := (48 <=? c) && (c <=? 57).

(** [[a-zA-Z\s'-]] *)
Definition nameClass (c : N) : bool :=
  isLower c || isUpper c || isWhiteSpace c || (c =? 39) || (c =? 45).

(** [[^\s@]] *)
Definition emailClass (c : N) : bool :=
  negb (isWhiteSpace c || (c =? 64)).

(** [[\s()-]] *)
Definition phoneFormatClass (c : N) : bool :=
  isWhiteSpace c || (c =? 40) || (c =? 41) || (c =? 45).

(** [/^[a-zA-Z\s'-]+$/] *)
Definition nameRegex : regex := Many1 (Class nameClass).

(** [/^[^\s@]+@[^\s@]+\.[^\s@]+$/] *)
Definition emailRegex : regex :=
  Seq (Many1 (Class emailClass))
    (Seq (Chr 64)
       (Seq (Many1 (Class emailClass))
          (Seq (Chr 46) (Many1 (Class emailClass))))).

(** [/^\+?[\d]{10,}$/] *)
Definition phoneRegex : regex :=
  Seq (Opt (Chr 43)) (AtLeast 10 (Class isDigit)).

(** [!value || value.trim().length === 0] *)
Definition isBlank (value : list N) : bool :=
  JS.not value || Nat.eqb (length (trim value)) 0.

Definition validateName (value : list N) : list N :=
  if isBlank value then lit "This field is required"
  else if Nat.ltb (length value) 2 then
    lit "Name must be at least 2 characters"
  else if Nat.ltb 50 (length value) then
    lit "Name must not exceed 50 characters"
  else if negb (test nameRegex value) then
    lit "Name can only contain letters, spaces, hyphens, and apostrophes"
  else [].

Definition validateEmail (value : list N) : list N :=
  if isBlank value then lit "Email is required"
  else
    if negb (test emailRegex value) then
      lit "Please enter a valid email address"
    else [].

Definition validatePhone (value : list N) : list N :=
  if isBlank value then lit "Phone number is required"
  else
    let cleanedPhone := removeAll phoneFormatClass value in
    if negb (test phoneRegex cleanedPhone) then
      lit "Phone number must contain at least 10 digits"
    else [].

(** The router: a [switch] on the validation kind, compared with [===];
    an absent kind ([undefined]) takes the [default] branch. *)
Definition validateField
    (fieldName value : list N) (validation : option (list N)) : list N :=
  let default :=
    if isBlank value then lit "This field is required" else [] in
  match validation with
  | Some kind =>
      if bool_decide (kind = lit "name") then validateName value
      else if bool_decide (kind = lit "email") then validateEmail value
      else if bool_decide (kind = lit "phone") then validatePhone value
      else default
  | None => default
  end.


(** ** [src/types/user.ts] and [src/config/userSchema.ts] *)

Inductive FieldType : Type := text | email | tel | date.

Record SchemaField : Type := {
  name : list N;
  label : list N;
  type : FieldType;
  required : bool;
  validation : option (list N);
  placeholder : option (list N)
}.

Definition userSchema : list SchemaField :=
  [ {| name := lit "firstName"; label := lit "First Name"; type := text;
       required := true; validation := Some (lit "name");
       placeholder := Some (lit "John") |};
    {| name := lit "lastName"; label := lit "Last Name"; type := text;
       required := true; validation := Some (lit "name");
       placeholder := Some (lit "Doe") |};
    {| name := lit "email"; label := lit "Email Address"; type := email;
       required := true; validation := Some (lit "email");
       placeholder := Some (lit "john@example.com") |};
    {| name := lit "phone"; label := lit "Phone Number"; type := tel;
       required := true; validation := Some (lit "phone");
       placeholder := Some (lit "(555) 123-4567") |} ].

(** [Object.values(o)] (the order plays no role for [every]). *)
Definition values {A : Type} (o : gmap (list N) A) : list A :=
  (map_to_list o).*2.

(** One iteration of the [forEach] body of [validateFormData]. *)
Definition validateFormData_step
    (formData errors : gmap (list N) (list N)) (field : SchemaField)
    : gmap (list N) (list N) :=
  let value := formData !! name field in
  let error :=
    validateField (name field) (or_else value []) (validation field) in
  if truthy error then <[name field := error]> errors else errors.

Definition validateFormData (formData : gmap (list N) (list N))
    : gmap (list N) (list N) :=
  foldl (validateFormData_step formData) ∅ userSchema.

Definition isFormValid (errors : gmap (list N) (list N)) : bool :=
  forallb (fun error => JS.not error) (values errors).

(** ** [src/components/UserForm.tsx] *)

Definition getEmptyFormData : gmap (list N) (list N) :=
  foldl (fun data field => <[name field := []]> data) ∅ userSchema.

(** The three state variables of the component. *)
Record FormState : Type := {
  formData : gmap (list N) (list N);
  errors : gmap (list N) (list N);
  touched : gmap (list N) bool
}.

(** What the component does to its surroundings during an event handler. *)
Inductive FormEvent : Type :=
| PreventDefault
| OnSubmit (data : gmap (list N) (list N)).

(** The effect of the [useEffect] on [initialData], and the first render. *)
Definition initialize (initialData : option (gmap (list N) (list N)))
    : FormState :=
  {| formData := default getEmptyFormData initialData;
     errors := ∅;
     touched := ∅ |}.

(** [userSchema.find((field) => field.name === n)?.validation] *)
Definition schemaValidation (n : list N) : option (list N) :=
  List.find (fun field => bool_decide (name field = n)) userSchema
    ≫= validation.

(** [touched[n]] as a condition: [undefined] and [false] are falsy. *)
Definition isTouched (st : FormState) (n : list N) : bool :=
  default false (touched st !! n).

Definition handleChange (n value : list N) (st : FormState) : FormState :=
  let formData' := <[n := value]> (formData st) in
  if isTouched st n then
    let error := validateField n value (schemaValidation n) in
    {| formData := formData';
       errors := <[n := error]> (errors st);
       touched := touched st |}
  else
    {| formData := formData'; errors := errors st; touched := touched st |}.

Definition handleBlur (n value : list N) (st : FormState) : FormState :=
  let error := validateField n value (schemaValidation n) in
  {| formData := formData st;
     errors := <[n := error]> (errors st);
     touched := <[n := true]> (touched st) |}.

(** [touchedFields] of [handleSubmit]. *)
Definition touchedFields : gmap (list N) bool :=
  foldl (fun m field => <[name field := true]> m) ∅ userSchema.

Definition handleSubmit (st : FormState) : FormState * list FormEvent :=
  let newErrors := validateFormData (formData st) in
  if negb (isFormValid newErrors) then
    ({| formData := formData st;
        errors := newErrors;
        touched := touchedFields ∪ touched st |},
     [PreventDefault])
  else
    (st, [PreventDefault; OnSubmit (formData st)]).

Definition handleClearForm (st : FormState) : FormState :=
  {| formData := getEmptyFormData; errors := ∅; touched := ∅ |}.

Definition isFormValidNow (st : FormState) : bool :=
  isFormValid (errors st) &&
  forallb (fun v => Nat.ltb 0 (length (trim v))) (values (formData st)).

(** ** [src/hooks/useUserCRUD.ts] *)

Record User : Type := {
  user_id : list N;
  user_firstName : list N;
  user_lastName : list N;
  user_email : list N;
  user_phone : list N;
  user_createdAt : list N
}.

(** [ApiResponse<User>]: [data] and [error] are optional properties. *)
Record ApiResponse : Type := {
  success : bool;
  data : option User;
  error : option (list N)
}.

(** [LoadingState]; the source's field [list] is spelled [list_] here. *)
Record LoadingState : Type := {
  list_ : bool;
  creating : bool;
  updating : bool;
  deleting : option (list N)
}.

(** The two state variables of the hook. *)
Record Hook : Type := {
  state : LoadingState;
  lastError : option (list N)
}.

(** What a call of a caller-supplied callback does to the operation that
    makes it: it returns, or it throws [err]. *)
Inductive CallbackResult : Type :=
| Returns
| Throws (err : list N).

(** The optional callbacks of [UseUserCRUDProps], each of type
    [(message: string) => void]: absent, or a function that, given the
    message, returns or throws.  A callback does not call back into the
    hook. *)
Record UseUserCRUDProps : Type := {
  onSuccess : option (list N -> CallbackResult);
  onError : option (list N -> CallbackResult)
}.

(** How the awaited backend promise settles. *)
Inductive Settled : Type :=
| Resolves (response : ApiResponse)
| Rejects (err : list N).

(** Observable steps of an operation of the hook, in program order. *)
Inductive HookEvent : Type :=
| SetState (next : LoadingState)
| SetLastError (next : option (list N))
| ApiCreateUser (d : gmap (list N) (list N))
| CallOnSuccess (message : list N)
| CallOnError (message : list N)
| ConsoleError (message err : list N).

(** Statements either complete normally or throw. *)
Inductive Completion (A : Type) : Type :=
| Normal (a : A)
| Throw (err : list N).
Arguments Normal {A} a.
Arguments Throw {A} err.

(** Computations over the hook's state that log their steps and may throw. *)
Definition Eff (A : Type) : Type :=
  Hook -> Completion A * Hook * list HookEvent.

Definition ret {A : Type} (a : A) : Eff A :=
  fun h => (Normal a, h, []).

Definition bind {A B : Type} (c : Eff A) (k : A -> Eff B) : Eff B :=
  fun h =>
    match c h with
    | (Normal a, h1, t1) =>
        match k a h1 with
        | (r, h2, t2) => (r, h2, t1 ++ t2)
        end
    | (Throw err, h1, t1) => (Throw err, h1, t1)
    end.

Notation "x <- c1 ;; c2" := (bind c1 (fun x => c2))
  (at level 100, c1 at next level, right associativity).
Notation "c1 ;; c2" := (bind c1 (fun _ => c2))
  (at level 100, right associativity).

Definition emit (e : HookEvent) : Eff unit :=
  fun h => (Normal tt, h, [e]).

(** [try { body } catch (err) { handler } finally { fin }], where [body] and
    [handler] end in a [return] whose value survives the [finally] block. *)
Definition try_catch_finally {A : Type}
    (body : Eff A) (handler : list N -> Eff A) (fin : Eff unit) : Eff A :=
  fun h =>
    let '(c1, h1, t1) := body h in
    let '(c2, h2, t2) :=
      match c1 with
      | Normal a => (Normal a, h1, [])
      | Throw err => handler err h1
      end in
    let '(c3, h3, t3) := fin h2 in
    (match c3 with
     | Normal _ => c2
     | Throw err => Throw err
     end, h3, t1 ++ t2 ++ t3).

(** [setState((prev) => f prev)] *)
Definition setState (f : LoadingState -> LoadingState) : Eff unit :=
  fun h =>
    let next := f (state h) in
    (Normal tt, {| state := next; lastError := lastError h |},
     [SetState next]).

Definition setLastError (e : option (list N)) : Eff unit :=
  fun h =>
    (Normal tt, {| state := state h; lastError := e |}, [SetLastError e]).

(** [cb?.(message)]: nothing happens when the callback is absent;
    otherwise the call is logged as the step [e message] and completes as
    the callback does, so that a throwing callback throws here. *)
Definition optional_call
    (cb : option (list N -> CallbackResult)) (e : list N -> HookEvent)
    (message : list N) : Eff unit :=
  match cb with
  | None => ret tt
  | Some f =>
      fun h =>
        (match f message with
         | Returns => Normal tt
         | Throws err => Throw err
         end, h, [e message])
  end.

(** [await api.createUser(d)] *)
Definition await_createUser
    (api : gmap (list N) (list N) -> Settled) (d : gmap (list N) (list N))
    : Eff ApiResponse :=
  fun h =>
    (match api d with
     | Resolves response => Normal response
     | Rejects err => Throw err
     end, h, [ApiCreateUser d]).

(** [{ ...prev, creating: b }] *)
Definition with_creating (b : bool) (prev : LoadingState) : LoadingState :=
  {| list_ := list_ prev; creating := b;
     updating := updating prev; deleting := deleting prev |}.

Definition createUser
    (props : UseUserCRUDProps) (api : gmap (list N) (list N) -> Settled)
    (d : gmap (list N) (list N)) : Eff (option User) :=
  try_catch_finally
    (setState (with_creating true) ;;
     setLastError None ;;
     response <- await_createUser api d ;;
     match (if success response then data response else None) with
     | Some u =>
         optional_call (onSuccess props) CallOnSuccess
           (lit "User created successfully") ;;
         ret (Some u)
     | None =>
         let error := or_else (error response) (lit "Failed to create user") in
         setLastError (Some error) ;;
         optional_call (onError props) CallOnError error ;;
         ret None
     end)
    (fun err =>
       let error :=
         lit "An unexpected error occurred while creating the user" in
       setLastError (Some error) ;;
       optional_call (onError props) CallOnError error ;;
       emit (ConsoleError (lit "[v0] Error creating user:") err) ;;
       ret None)
    (setState (with_creating false)).

Definition clearError : Eff unit := setLastError None.

Definition initialHook : Hook :=
  {| state := {| list_ := false; creating := false;
                 updating := false; deleting := None |};
     lastError := None |}.

(** ** Specification-side definitions

    The validators as the specification words them, for comparison with the
    definitions above. *)

(** Empty or whitespace-only: every code unit, if there is any, is
    whitespace. *)
Definition Blank (v : list N) : Prop :=
  Forall (fun c => isWhiteSpace c = true) v.

Definition isLetter (c : N) : bool := isUpper c || isLower c.

(** Letters, the space character U+0020, hyphen and apostrophe. *)
Definition letterSpaceHyphenApostrophe (c : N) : bool :=
  isLetter c || (c =? 32) || (c =? 45) || (c =? 39).

(** Letters, any whitespace character, hyphen and apostrophe. *)
Definition letterWhitespaceHyphenApostrophe (c : N) : bool :=
  isLetter c || isWhiteSpace c || (c =? 45) || (c =? 39).

(** The name rule, for a given set of allowed characters. *)
Definition validateName_spec (allowed : N -> bool) (v : list N) : list N :=
  if forallb isWhiteSpace v then lit "This field is required"
  else if Nat.ltb (length v) 2 then lit "Name must be at least 2 characters"
  else if Nat.ltb 50 (length v) then lit "Name must not exceed 50 characters"
  else if existsb (fun c => negb (allowed c)) v then
    lit "Name can only contain letters, spaces, hyphens, and apostrophes"
  else [].

(** An optional leading plus sign followed by 10 or more digits. *)
Definition phoneShape (s : list N) : bool :=
  let digits :=
    match s with
    | c :: ds => if c =? 43 then ds else s
    | [] => s
    end in
  Nat.leb 10 (length digits) && forallb isDigit digits.

(** The space character U+0020, parentheses and hyphen. *)
Definition spaceParenHyphen (c : N) : bool :=
  (c =? 32) || (c =? 40) || (c =? 41) || (c =? 45).

(** Any whitespace character, parentheses and hyphen. *)
Definition whitespaceParenHyphen (c : N) : bool :=
  isWhiteSpace c || (c =? 40) || (c =? 41) || (c =? 45).

(** The phone rule, for a given set of formatting characters to remove. *)
Definition validatePhone_spec (formatting : N -> bool) (v : list N)
    : list N :=
  if forallb isWhiteSpace v then lit "Phone number is required"
  else if phoneShape (List.filter (fun c => negb (formatting c)) v) then []
  else lit "Phone number must contain at least 10 digits".

(** One or more characters that are neither whitespace nor [@]. *)
Definition EmailPart (s : list N) : Prop :=
  s <> [] /\ Forall (fun c => isWhiteSpace c = false /\ c <> 64) s.

(** Such characters, then [@], then such characters, then a dot, then such
    characters. *)
Definition EmailShape (v : list N) : Prop :=
  exists a b c,
    v = a ++ [64] ++ b ++ [46] ++ c /\
    EmailPart a /\ EmailPart b /\ EmailPart c.

(** The generic required check. *)
Definition requiredCheck (v : list N) : list N :=
  if forallb isWhiteSpace v then lit "This field is required" else [].

(** The error of a schema field on a draft: its validator applied to the
    draft's value for the field, or to the empty string when absent. *)
Definition fieldError
    (draft : gmap (list N) (list N)) (field : SchemaField) : list N :=
  validateField (name field) (default [] (draft !! name field))
    (validation field).

(** Some entry of an errors mapping holds a non-empty message. *)
Definition HasError (errs : gmap (list N) (list N)) : Prop :=
  exists k e, errs !! k = Some e /\ e <> [].

(** No entry of an errors mapping holds a non-empty message. *)
Definition NoErrors (errs : gmap (list N) (list N)) : Prop :=
  forall k e, errs !! k = Some e -> e = [].

(** The completion of [cb?.(message)]. *)
Definition callResult
    (cb : option (list N -> CallbackResult)) (message : list N)
    : Completion unit :=
  match cb with
  | None => Normal tt
  | Some f =>
      match f message with
      | Returns => Normal tt
      | Throws err => Throw err
      end
  end.

(** The step [cb?.(message)] logs: none when the callback is absent. *)
Definition callEvents {E : Type}
    (cb : option (list N -> CallbackResult)) (e : E) : list E :=
  match cb with
  | None => []
  | Some _ => [e]
  end.



(** The value of a block that ends in [return a] after a callback call. *)
Definition afterCall {A : Type} (c : Completion unit) (a : A)
    : Completion A :=
  match c with
  | Normal _ => Normal a
  | Throw err => Throw err
  end.

(** The steps that follow a callback call when it returns. *)
Definition ifReturned {E : Type} (c : Completion unit) (l : list E)
    : list E :=
  match c with
  | Normal _ => l
  | Throw _ => []
  end.

(** The steps every run starts with, and the step it ends with. *)
Definition prologue (h : Hook) (d : gmap (list N) (list N))
    : list HookEvent :=
  [SetState (with_creating true (state h)); SetLastError None;
   ApiCreateUser d].

Definition epilogue (h : Hook) : list HookEvent :=
  [SetState (with_creating false (with_creating true (state h)))].

(** The hook once a run has settled with last error [e]. *)
Definition settledHook (h : Hook) (e : option (list N)) : Hook :=
  {| state := with_creating false (with_creating true (state h));
     lastError := e |}.




(** ** The other operations of [src/hooks/useUserCRUD.ts]

    [updateUser] and [deleteUser] have the shape of [createUser].  They are
    written over the same kind of computation, generic in the state it
    threads and in the steps it logs. *)

Section Proc.

Context {S E : Type}.

Definition Proc (A : Type) : Type := S -> Completion A * S * list E.

Definition pret {A : Type} (a : A) : Proc A :=
  fun s => (Normal a, s, []).

Definition pbind {A B : Type} (c : Proc A) (k : A -> Proc B) : Proc B :=
  fun s =>
    match c s with
    | (Normal a, s1, t1) =>
        match k a s1 with
        | (r, s2, t2) => (r, s2, t1 ++ t2)
        end
    | (Throw err, s1, t1) => (Throw err, s1, t1)
    end.

(** A state update, logged as the step [e]. *)
Definition pmodify (f : S -> S) (e : S -> E) : Proc unit :=
  fun s => (Normal tt, f s, [e (f s)]).

Definition pemit (e : E) : Proc unit :=
  fun s => (Normal tt, s, [e]).

(** [cb?.(message)], completing as the callback does. *)
Definition poptional_call
    (cb : option (list N -> CallbackResult)) (e : list N -> E)
    (message : list N) : Proc unit :=
  match cb with
  | None => pret tt
  | Some f =>
      fun s =>
        (match f message with
         | Returns => Normal tt
         | Throws err => Throw err
         end, s, [e message])
  end.

(** An awaited promise: the step [e], then its value or its rejection. *)
Definition pawait {A : Type} (e : E) (settled : Completion A) : Proc A :=
  fun s => (settled, s, [e]).

(** [try { body } catch (err) { handler } finally { fin }] *)
Definition ptry {A : Type}
    (body : Proc A) (handler : list N -> Proc A) (fin : Proc unit) : Proc A :=
  fun s =>
    let '(c1, s1, t1) := body s in
    let '(c2, s2, t2) :=
      match c1 with
      | Normal a => (Normal a, s1, [])
      | Throw err => handler err s1
      end in
    let '(c3, s3, t3) := fin s2 in
    (match c3 with
     | Normal _ => c2
     | Throw err => Throw err
     end, s3, t1 ++ t2 ++ t3).

End Proc.

Arguments Proc : clear implicits.

Notation "x <~ c1 ;; c2" := (pbind c1 (fun x => c2))
  (at level 100, c1 at next level, right associativity).
Notation "c1 ;;; c2" := (pbind c1 (fun _ => c2))
  (at level 100, right associativity).

(** Observable steps of [updateUser] and [deleteUser]. *)
Inductive CrudEvent : Type :=
| CSetState (next : LoadingState)
| CSetLastError (next : option (list N))
| CApiUpdateUser (id : list N) (d : gmap (list N) (list N))
| CApiDeleteUser (id : list N)
| COnSuccess (message : list N)
| COnError (message : list N)
| CConsoleError (message err : list N).

Definition settle (s : Settled) : Completion ApiResponse :=
  match s with
  | Resolves response => Normal response
  | Rejects err => Throw err
  end.

Definition csetState (f : LoadingState -> LoadingState)
    : Proc Hook CrudEvent unit :=
  pmodify (fun h => {| state := f (state h); lastError := lastError h |})
    (fun h => CSetState (state h)).

Definition csetLastError (e : option (list N)) : Proc Hook CrudEvent unit :=
  pmodify (fun h => {| state := state h; lastError := e |})
    (fun _ => CSetLastError e).

(** [{ ...prev, updating: b }] *)
Definition with_updating (b : bool) (prev : LoadingState) : LoadingState :=
  {| list_ := list_ prev; creating := creating prev;
     updating := b; deleting := deleting prev |}.

(** [{ ...prev, deleting: x }] *)
Definition with_deleting (x : option (list N)) (prev : LoadingState)
    : LoadingState :=
  {| list_ := list_ prev; creating := creating prev;
     updating := updating prev; deleting := x |}.

Definition updateUser
    (props : UseUserCRUDProps)
    (api : list N -> gmap (list N) (list N) -> Settled)
    (id : list N) (d : gmap (list N) (list N))
    : Proc Hook CrudEvent (option User) :=
  ptry
    (csetState (with_updating true) ;;;
     csetLastError None ;;;
     response <~ pawait (CApiUpdateUser id d) (settle (api id d)) ;;
     match (if success response then data response else None) with
     | Some u =>
         poptional_call (onSuccess props) COnSuccess
           (lit "User updated successfully") ;;;
         pret (Some u)
     | None =>
         let error := or_else (error response) (lit "Failed to update user") in
         csetLastError (Some error) ;;;
         poptional_call (onError props) COnError error ;;;
         pret None
     end)
    (fun err =>
       let error :=
         lit "An unexpected error occurred while updating the user" in
       csetLastError (Some error) ;;;
       poptional_call (onError props) COnError error ;;;
       pemit (CConsoleError (lit "[v0] Error updating user:") err) ;;;
       pret None)
    (csetState (with_updating false)).

(** The response of [api.deleteUser] is read for [success] and [error]
    only. *)
Definition deleteUser
    (props : UseUserCRUDProps) (api : list N -> Settled) (id : list N)
    : Proc Hook CrudEvent bool :=
  ptry
    (csetState (with_deleting (Some id)) ;;;
     csetLastError None ;;;
     response <~ pawait (CApiDeleteUser id) (settle (api id)) ;;
     if success response then
       poptional_call (onSuccess props) COnSuccess
         (lit "User deleted successfully") ;;;
       pret true
     else
       let error := or_else (error response) (lit "Failed to delete user") in
       csetLastError (Some error) ;;;
       poptional_call (onError props) COnError error ;;;
       pret false)
    (fun err =>
       let error :=
         lit "An unexpected error occurred while deleting the user" in
       csetLastError (Some error) ;;;
       poptional_call (onError props) COnError error ;;;
       pemit (CConsoleError (lit "[v0] Error deleting user:") err) ;;;
       pret false)
    (csetState (with_deleting None)).

(** ** [src/hooks/useUsers.ts] *)

Module UseUsers.

(** [ApiResponse<User[]>] *)
Record Response : Type := {
  success : bool;
  data : option (list User);
  error : option (list N)
}.

(** The three state variables of the hook. *)
Record State : Type := {
  users : list User;
  isLoading : bool;
  loadError : option (list N)
}.

Inductive Event : Type :=
| SetIsLoading (next : bool)
| SetError (next : option (list N))
| SetUsers (next : list User)
| ApiGetUsers
| ConsoleError (message err : list N).

Inductive Settled : Type :=
| Resolves (response : Response)
| Rejects (err : list N).

Definition settle (s : Settled) : Completion Response :=
  match s with
  | Resolves response => Normal response
  | Rejects err => Throw err
  end.

Definition initial : State :=
  {| users := []; isLoading := true; loadError := None |}.

Definition setUsers (l : list User) : Proc State Event unit :=
  pmodify
    (fun s => {| users := l; isLoading := isLoading s;
                 loadError := loadError s |})
    (fun _ => SetUsers l).

Definition setIsLoading (b : bool) : Proc State Event unit :=
  pmodify
    (fun s => {| users := users s; isLoading := b;
                 loadError := loadError s |})
    (fun _ => SetIsLoading b).

(** [setError] of the hook; the state variable [error] is spelled
    [loadError] here. *)
Definition setError (e : option (list N)) : Proc State Event unit :=
  pmodify
    (fun s => {| users := users s; isLoading := isLoading s;
                 loadError := e |})
    (fun _ => SetError e).

Definition fetchUsers (api : Settled) : Proc State Event unit :=
  ptry
    (setIsLoading true ;;;
     setError None ;;;
     response <~ pawait ApiGetUsers (settle api) ;;
     match (if success response then data response else None) with
     | Some l => setUsers l
     | None =>
         setError
           (Some (or_else (error response) (lit "Failed to load users")))
     end)
    (fun err =>
       setError
         (Some (lit "An unexpected error occurred while loading users")) ;;;
       pemit (ConsoleError (lit "[v0] Error fetching users:") err))
    (setIsLoading false).

Definition refetch (api : Settled) : Proc State Event unit := fetchUsers api.

End UseUsers.

(** ** The mode machine of [src/components/App.tsx] *)

(** ['list' | 'create' | 'edit'] *)
Inductive AppMode : Type := mode_list | mode_create | mode_edit.

Record AppState : Type := {
  mode : AppMode;
  editingUser : option User;
  deleteConfirmUser : option User
}.

Definition initialApp : AppState :=
  {| mode := mode_list; editingUser := None; deleteConfirmUser := None |}.

(** The hook after [clearError()]. *)
Definition cleared (h : Hook) : Hook := (clearError h).1.2.

Definition handleStartCreate (a : AppState) (h : Hook) : AppState * Hook :=
  ({| mode := mode_create; editingUser := None;
      deleteConfirmUser := deleteConfirmUser a |}, cleared h).

Definition handleStartEdit (user : User) (a : AppState) (h : Hook)
    : AppState * Hook :=
  ({| mode := mode_edit; editingUser := Some user;
      deleteConfirmUser := deleteConfirmUser a |}, cleared h).

Definition handleCancel (a : AppState) (h : Hook) : AppState * Hook :=
  ({| mode := mode_list; editingUser := None;
      deleteConfirmUser := deleteConfirmUser a |}, cleared h).

(** The state updates of the [onSuccess] callback given to [useUserCRUD]. *)
Definition appOnSuccess (a : AppState) : AppState :=
  {| mode := mode_list; editingUser := None;
     deleteConfirmUser := deleteConfirmUser a |}.

(** [setDeleteConfirmUser(x)], as the list's [onDelete] and the dialog's
    [onCancel] call it. *)
Definition setDeleteConfirmUser (x : option User) (a : AppState) : AppState :=
  {| mode := mode a; editingUser := editingUser a; deleteConfirmUser := x |}.

Definition isSubmitting (a : AppState) (h : Hook) : bool :=
  match mode a with
  | mode_create => creating (state h)
  | _ => updating (state h)
  end.

(** One event of the application, as far as its mode machine goes. *)
Inductive AppStep : AppState * Hook -> AppState * Hook -> Prop :=
| StepStartCreate a h : AppStep (a, h) (handleStartCreate a h)
| StepStartEdit user a h : AppStep (a, h) (handleStartEdit user a h)
| StepCancel a h : AppStep (a, h) (handleCancel a h)
| StepOnSuccess a h h' : AppStep (a, h) (appOnSuccess a, h')
| StepSetDeleteConfirm x a h h' :
    AppStep (a, h) (setDeleteConfirmUser x a, h').

Inductive AppReachable : AppState * Hook -> Prop :=
| ReachInitial h : AppReachable (initialApp, h)
| ReachStep s s' : AppReachable s -> AppStep s s' -> AppReachable s'.

(** ** The form as a transition system *)

(** [errors[field.name] || ''], the error handed to a rendered field. *)
Definition displayedError (st : FormState) (n : list N) : list N :=
  or_else (errors st !! n) [].

(** [formData[field.name]], the value handed to a rendered field; the
    input is controlled, so this is also the value a blur event carries. *)
Definition renderedValue (st : FormState) (n : list N) : list N :=
  default [] (formData st !! n).

(** The events of the form.  Change and blur events come from the inputs
    rendered for the schema fields. *)
Inductive FormStep : FormState -> FormState -> Prop :=
| StepChange field value st :
    field ∈ userSchema ->
    FormStep st (handleChange (name field) value st)
| StepBlur field st :
    field ∈ userSchema ->
    FormStep st (handleBlur (name field) (renderedValue st (name field)) st)
| StepSubmit st : FormStep st (handleSubmit st).1
| StepClear st : FormStep st (handleClearForm st)
| StepInitialData initialData st : FormStep st (initialize initialData).

Inductive FormReachable : FormState -> Prop :=
| ReachInitialize initialData : FormReachable (initialize initialData)
| ReachFormStep st st' :
    FormReachable st -> FormStep st st' -> FormReachable st'.

(** No touched schema field shows a stale error. *)
Definition ErrorsFresh (st : FormState) : Prop :=
  forall field,
    field ∈ userSchema ->
    touched st !! name field = Some true ->
    displayedError st (name field) = fieldError (formData st) field.

(** The steps a run of [updateUser] or [deleteUser] starts with, and the
    hook once the run has settled. *)
Definition updatePrologue (h : Hook) (id : list N)
    (d : gmap (list N) (list N)) : list CrudEvent :=
  [CSetState (with_updating true (state h)); CSetLastError None;
   CApiUpdateUser id d].

Definition updatedHook (h : Hook) (e : option (list N)) : Hook :=
  {| state := with_updating false (with_updating true (state h));
     lastError := e |}.

Definition deletePrologue (h : Hook) (id : list N) : list CrudEvent :=
  [CSetState (with_deleting (Some id) (state h)); CSetLastError None;
   CApiDeleteUser id].

Definition deletedHook (h : Hook) (id : list N) (e : option (list N))
    : Hook :=
  {| state := with_deleting None (with_deleting (Some id) (state h));
     lastError := e |}.

(** The message of a failure response, given the operation's fallback. *)
Definition failureMessage (r : ApiResponse) (fallback : list N) : list N :=
  match error r with
  | Some (c :: e) => c :: e
  | _ => fallback
  end.

Ltac unfold_crud :=
  unfold updateUser, deleteUser, ptry, pbind, pawait, csetState,
    csetLastError, pmodify, poptional_call, pemit, pret, settle;
  cbn [state lastError].



(** * Properties *)

(** ** Trimming and blank strings *)

Section Trim.

Lemma forallb_trimStart (s : list N) :
  forallb isWhiteSpace (trimStart s) = forallb isWhiteSpace s.
Proof.
  induction s as [|c s IH]; simpl; [reflexivity|].
  destruct (isWhiteSpace c) eqn:Hc; simpl; [exact IH|].
  now rewrite Hc.
Qed.

Lemma trimStart_nil (s : list N) :
  trimStart s = [] <-> forallb isWhiteSpace s = true.
Proof.
  induction s as [|c s IH]; simpl; [tauto|].
  destruct (isWhiteSpace c); simpl; [exact IH|].
  split; discriminate.
Qed.

Lemma forallb_rev (p : N -> bool) (s : list N) :
  forallb p (rev s) = forallb p s.
Proof.
  induction s as [|c s IH]; simpl; [reflexivity|].
  rewrite forallb_app, IH. simpl. rewrite andb_true_r. apply andb_comm.
Qed.

Lemma trim_nil (s : list N) :
  trim s = [] <-> forallb isWhiteSpace s = true.
Proof.
  unfold trim, trimEnd.
  rewrite <- (forallb_trimStart s), <- (forallb_rev _ (trimStart s)).
  rewrite <- trimStart_nil.
  split; intros H.
  - apply (f_equal (@rev N)) in H. now rewrite rev_involutive in H.
  - now rewrite H.
Qed.

Lemma isBlank_forallb (value : list N) :
  isBlank value = forallb isWhiteSpace value.
Proof.
  unfold isBlank.
  destruct value as [|c s]; [reflexivity|]. cbn [JS.not truthy negb orb].
  destruct (forallb isWhiteSpace (c :: s)) eqn:Hws.
  - apply trim_nil in Hws. now rewrite Hws.
  - destruct (trim (c :: s)) eqn:Ht; [|reflexivity].
    apply trim_nil in Ht. congruence.
Qed.

End Trim.

(** ** The matcher decides the language of a pattern *)

Section RegexCorrect.

Lemma nullable_Matches (r : regex) : nullable r = true <-> Matches r [].
Proof.
  induction r as [| |p|r1 IH1 r2 IH2|r1 IH1 r2 IH2|r IH]; simpl.
  - split; [discriminate|]. intros H; inversion H.
  - split; [constructor|reflexivity].
  - split; [discriminate|]. intros H; inversion H.
  - rewrite andb_true_iff, IH1, IH2. split.
    + intros [H1 H2]. exact (MSeq _ _ [] [] H1 H2).
    + intros H. inversion H as [| |? ? s1 s2 H1 H2 E1 E2| | | |]; subst.
      apply app_eq_nil in E2 as [-> ->]. now split.
  - rewrite orb_true_iff, IH1, IH2. split.
    + intros [H|H]; [now apply MAltL | now apply MAltR].
    + intros H. inversion H; subst; [now left | now right].
  - split; [constructor|reflexivity].
Qed.

Lemma deriv_sound (c : N) (r : regex) :
  forall s, Matches (deriv c r) s -> Matches r (c :: s).
Proof.
  induction r as [| |p|r1 IH1 r2 IH2|r1 IH1 r2 IH2|r IH]; simpl; intros s H.
  - inversion H.
  - inversion H.
  - destruct (p c) eqn:Hp; inversion H; subst. now constructor.
  - destruct (nullable r1) eqn:Hn.
    + inversion H as [| | |? ? ? HL|? ? ? HR| |]; subst.
      * inversion HL as [| |? ? s1 s2 H1 H2| | | |]; subst.
        exact (MSeq _ _ (c :: s1) s2 (IH1 _ H1) H2).
      * apply nullable_Matches in Hn.
        exact (MSeq _ _ [] (c :: s) Hn (IH2 _ HR)).
    + inversion H as [| |? ? s1 s2 H1 H2| | | |]; subst.
      exact (MSeq _ _ (c :: s1) s2 (IH1 _ H1) H2).
  - inversion H; subst; [apply MAltL | apply MAltR]; auto.
  - inversion H as [| |? ? s1 s2 H1 H2| | | |]; subst.
    exact (MStarApp _ (c :: s1) s2 (IH _ H1) H2).
Qed.

Lemma deriv_complete (c : N) (r : regex) (s : list N) :
  Matches r (c :: s) -> Matches (deriv c r) s.
Proof.
  intros H. remember (c :: s) as cs eqn:E. revert s E.
  induction H as [|p c' Hp|r1 r2 s1 s2 H1 IH1 H2 IH2|r1 r2 s0 H IH
                 |r1 r2 s0 H IH|r|r s1 s2 H1 IH1 H2 IH2];
    intros s E; simpl.
  - discriminate.
  - injection E as -> <-. rewrite Hp. constructor.
  - destruct s1 as [|c1 s1]; simpl in E.
    + assert (Hn : nullable r1 = true) by now apply nullable_Matches.
      rewrite Hn. apply MAltR. now apply IH2.
    + injection E as -> <-.
      destruct (nullable r1); [apply MAltL|]; constructor; auto.
  - apply MAltL. now apply IH.
  - apply MAltR. now apply IH.
  - discriminate.
  - destruct s1 as [|c1 s1]; simpl in E.
    + now apply IH2.
    + injection E as -> <-. constructor; auto.
Qed.

Lemma test_Matches (r : regex) (s : list N) :
  test r s = true <-> Matches r s.
Proof.
  revert r. induction s as [|c s IH]; intros r; simpl.
  - apply nullable_Matches.
  - rewrite IH. split; [apply deriv_sound | apply deriv_complete].
Qed.

End RegexCorrect.

(** ** The languages of the patterns of [validation.ts] *)

Section Patterns.

Lemma Matches_Class (p : N -> bool) (s : list N) :
  Matches (Class p) s <-> exists c, s = [c] /\ p c = true.
Proof.
  split.
  - intros H. inversion H; subst. eauto.
  - intros (c & -> & Hp). now constructor.
Qed.

Lemma Matches_Seq (r1 r2 : regex) (s : list N) :
  Matches (Seq r1 r2) s <->
  exists s1 s2, s = s1 ++ s2 /\ Matches r1 s1 /\ Matches r2 s2.
Proof.
  split.
  - intros H. inversion H; subst. eauto.
  - intros (s1 & s2 & -> & H1 & H2). now constructor.
Qed.

Lemma Matches_Star_Class (p : N -> bool) (s : list N) :
  Matches (Star (Class p)) s <-> forallb p s = true.
Proof.
  split.
  - intros H. remember (Star (Class p)) as r eqn:E.
    induction H as [| | | | | |r s1 s2 H1 _ H2 IH2]; try discriminate.
    + reflexivity.
    + injection E as ->. inversion H1; subst. simpl.
      apply andb_true_iff. split; [assumption | now apply IH2].
  - induction s as [|c s IH]; simpl; intros H.
    + constructor.
    + apply andb_true_iff in H as [Hc Hs].
      apply (MStarApp _ [c] s); [now constructor | now apply IH].
Qed.

Lemma Matches_Many1_Class (p : N -> bool) (s : list N) :
  Matches (Many1 (Class p)) s <-> s <> [] /\ forallb p s = true.
Proof.
  unfold Many1. rewrite Matches_Seq. split.
  - intros (s1 & s2 & -> & H1 & H2).
    apply Matches_Class in H1 as (c & -> & Hc).
    apply Matches_Star_Class in H2. simpl. rewrite Hc, H2.
    split; [discriminate | reflexivity].
  - intros [Hne H]. destruct s as [|c s]; [congruence|].
    simpl in H. apply andb_true_iff in H as [Hc Hs].
    exists [c], s. split; [reflexivity|]. split.
    + now constructor.
    + now apply Matches_Star_Class.
Qed.

Lemma Matches_AtLeast_Class (n : nat) (p : N -> bool) :
  forall s : list N,
    Matches (AtLeast n (Class p)) s <->
    (n <= length s)%nat /\ forallb p s = true.
Proof.
  induction n as [|n IH]; intros s; simpl.
  - rewrite Matches_Star_Class. split; [intros H; split; [lia | exact H]|tauto].
  - rewrite Matches_Seq. split.
    + intros (s1 & s2 & -> & H1 & H2).
      apply Matches_Class in H1 as (c & -> & Hc).
      apply IH in H2 as [Hlen Hs]. simpl. rewrite Hc, Hs.
      split; [lia | reflexivity].
    + intros [Hlen H]. destruct s as [|c s]; simpl in *; [lia|].
      apply andb_true_iff in H as [Hc Hs].
      exists [c], s. split; [reflexivity|]. split.
      * now constructor.
      * apply IH. split; [lia | assumption].
Qed.

Lemma Matches_Chr (c : N) (s : list N) : Matches (Chr c) s <-> s = [c].
Proof.
  unfold Chr. rewrite Matches_Class. split.
  - intros (c' & -> & H). apply N.eqb_eq in H. now subst.
  - intros ->. exists c. split; [reflexivity | apply N.eqb_refl].
Qed.

Lemma Matches_Opt (r : regex) (s : list N) :
  Matches (Opt r) s <-> Matches r s \/ s = [].
Proof.
  unfold Opt. split.
  - intros H. inversion H as [| | |? ? ? HL|? ? ? HR| |]; subst;
      [now left | right; now inversion HR].
  - intros [H| ->]; [now apply MAltL | apply MAltR; constructor].
Qed.

Lemma test_nameRegex (v : list N) :
  test nameRegex v = match v with [] => false | _ => forallb nameClass v end.
Proof.
  apply eq_true_iff_eq. rewrite test_Matches.
  unfold nameRegex. rewrite Matches_Many1_Class.
  destruct v; [|intuition congruence].
  split; [intros [H _]; congruence | discriminate].
Qed.

Lemma test_phoneRegex (s : list N) : test phoneRegex s = phoneShape s.
Proof.
  apply eq_true_iff_eq. rewrite test_Matches.
  unfold phoneRegex, phoneShape. rewrite Matches_Seq.
  rewrite andb_true_iff, Nat.leb_le. split.
  - intros (s1 & s2 & -> & H1 & H2).
    apply Matches_AtLeast_Class in H2 as [Hlen Hd].
    apply Matches_Opt in H1 as [H1| ->].
    + apply Matches_Chr in H1 as ->. simpl. now split.
    + simpl. destruct s2 as [|c ds]; [now split|].
      destruct (c =? 43) eqn:Hc; [|now split].
      apply N.eqb_eq in Hc as ->. simpl in Hd. discriminate.
  - destruct s as [|c ds].
    + intros [Hlen _]. simpl in Hlen. lia.
    + destruct (c =? 43) eqn:Hc; intros [Hlen Hd].
      * apply N.eqb_eq in Hc as ->. exists [43], ds.
        split; [reflexivity|]. split.
        -- apply Matches_Opt. left. now apply Matches_Chr.
        -- now apply Matches_AtLeast_Class.
      * exists [], (c :: ds). split; [reflexivity|]. split.
        -- apply Matches_Opt. now right.
        -- now apply Matches_AtLeast_Class.
Qed.

Lemma emailClass_spec (c : N) :
  emailClass c = true <-> isWhiteSpace c = false /\ c <> 64.
Proof.
  unfold emailClass. rewrite negb_true_iff, orb_false_iff, N.eqb_neq.
  reflexivity.
Qed.

Lemma Many1_emailClass (s : list N) :
  Matches (Many1 (Class emailClass)) s <-> EmailPart s.
Proof.
  rewrite Matches_Many1_Class. unfold EmailPart.
  rewrite forallb_forall, Forall_forall.
  split; intros [Hne H]; (split; [exact Hne|]); intros c Hc.
  - apply emailClass_spec, H. now apply list_elem_of_In.
  - apply emailClass_spec, H. now apply list_elem_of_In.
Qed.

Lemma test_emailRegex (v : list N) :
  test emailRegex v = true <-> EmailShape v.
Proof.
  rewrite test_Matches. unfold emailRegex, EmailShape. split.
  - intros H.
    apply Matches_Seq in H as (a & r1 & -> & Ha & H).
    apply Matches_Seq in H as (at_ & r2 & -> & Hat & H).
    apply Matches_Seq in H as (b & r3 & -> & Hb & H).
    apply Matches_Seq in H as (dot & c & -> & Hdot & Hc).
    apply Matches_Chr in Hat as ->. apply Matches_Chr in Hdot as ->.
    exists a, b, c. rewrite <- !Many1_emailClass. auto.
  - intros (a & b & c & -> & Ha & Hb & Hc).
    rewrite <- Many1_emailClass in Ha, Hb, Hc.
    repeat (apply MSeq; try assumption); now apply Matches_Chr.
Qed.

End Patterns.

(** ** The cases of the repository's unit tests

    The embedding agrees with [validation.test.ts] on every case the
    repository checks. *)

Section UnitTests.

Example validateName_cases :
  validateName (lit "") = lit "This field is required" /\
  validateName (lit "   ") = lit "This field is required" /\
  validateName (lit "A") = lit "Name must be at least 2 characters" /\
  validateName (repeat 65 51) = lit "Name must not exceed 50 characters" /\
  validateName (lit "John123") =
    lit "Name can only contain letters, spaces, hyphens, and apostrophes" /\
  validateName (lit "Alice") = [] /\
  validateName (lit "O'Brien") = [] /\
  validateName (lit "Mary-Jane") = [].
Proof. repeat split; vm_compute; reflexivity. Qed.

Example validateEmail_cases :
  validateEmail (lit "") = lit "Email is required" /\
  validateEmail (lit "notanemail") =
    lit "Please enter a valid email address" /\
  validateEmail (lit "missing@tld") =
    lit "Please enter a valid email address" /\
  validateEmail (lit "@no-local.com") =
    lit "Please enter a valid email address" /\
  validateEmail (lit "user@example.com") = [] /\
  validateEmail (lit "first.last@domain.co") = [].
Proof. repeat split; vm_compute; reflexivity. Qed.

Example validatePhone_cases :
  validatePhone (lit "") = lit "Phone number is required" /\
  validatePhone (lit "12345") =
    lit "Phone number must contain at least 10 digits" /\
  validatePhone (lit "1234567890") = [] /\
  validatePhone (lit "(555) 123-4567") = [] /\
  validatePhone (lit "+11234567890") = [].
Proof. repeat split; vm_compute; reflexivity. Qed.

Example validateField_cases :
  validateField (lit "firstName") (lit "") (Some (lit "name")) =
    lit "This field is required" /\
  validateField (lit "firstName") (lit "Al") (Some (lit "name")) = [] /\
  validateField (lit "email") (lit "bad") (Some (lit "email")) =
    lit "Please enter a valid email address" /\
  validateField (lit "email") (lit "ok@ok.com") (Some (lit "email")) = [] /\
  validateField (lit "phone") (lit "123") (Some (lit "phone")) =
    lit "Phone number must contain at least 10 digits" /\
  validateField (lit "custom") (lit "") None = lit "This field is required" /\
  validateField (lit "custom") (lit "value") None = [].
Proof. repeat split; vm_compute; reflexivity. Qed.

Example validateFormData_cases :
  let form (f l e p : list N) : gmap (list N) (list N) :=
    <[lit "firstName" := f]>
      (<[lit "lastName" := l]>
         (<[lit "email" := e]> (<[lit "phone" := p]> ∅))) in
  validateFormData
    (form (lit "Alice") (lit "Johnson") (lit "alice@example.com")
       (lit "1234567890")) = ∅ /\
  validateFormData (form [] [] [] []) =
    <[lit "firstName" := lit "This field is required"]>
      (<[lit "lastName" := lit "This field is required"]>
         (<[lit "email" := lit "Email is required"]>
            (<[lit "phone" := lit "Phone number is required"]> ∅))) /\
  validateFormData
    (form (lit "Alice") [] (lit "alice@example.com") (lit "123")) =
    <[lit "lastName" := lit "This field is required"]>
      (<[lit "phone" :=
           lit "Phone number must contain at least 10 digits"]> ∅).
Proof. repeat split; vm_compute; reflexivity. Qed.

Example isFormValid_cases :
  isFormValid ∅ = true /\
  isFormValid (<[lit "firstName" := []]> (<[lit "email" := []]> ∅)) = true /\
  isFormValid (<[lit "firstName" := lit "Required"]> ∅) = false.
Proof. repeat split; vm_compute; reflexivity. Qed.

End UnitTests.

(** ** The validators *)

Section Validators.

Lemma negb_forallb {A : Type} (p : A -> bool) (s : list A) :
  negb (forallb p s) = existsb (fun c => negb (p c)) s.
Proof.
  induction s as [|c s IH]; simpl; [reflexivity|].
  now rewrite negb_andb, IH.
Qed.

Lemma nameClass_allowed (c : N) :
  nameClass c = letterWhitespaceHyphenApostrophe c.
Proof.
  unfold nameClass, letterWhitespaceHyphenApostrophe, isLetter.
  destruct (isLower c), (isUpper c), (isWhiteSpace c), (c =? 39), (c =? 45);
    reflexivity.
Qed.

Lemma phoneFormatClass_formatting (c : N) :
  phoneFormatClass c = whitespaceParenHyphen c.
Proof. reflexivity. Qed.

Lemma Blank_forallb (v : list N) :
  Blank v <-> forallb isWhiteSpace v = true.
Proof.
  unfold Blank. rewrite forallb_forall, Forall_forall.
  split; intros H c Hc; apply H; now apply list_elem_of_In.
Qed.

Lemma validateField_default (f v kind : list N) :
  kind <> lit "name" -> kind <> lit "email" -> kind <> lit "phone" ->
  validateField f v (Some kind) = requiredCheck v.
Proof.
  intros H1 H2 H3. unfold validateField, requiredCheck.
  rewrite !bool_decide_eq_false_2 by assumption.
  now rewrite isBlank_forallb.
Qed.

(** C1 (as amended).  For every string value, [validateName] returns the
    required error if the value is empty or whitespace-only; otherwise a
    length error if its length is below 2; otherwise a length error if its
    length is above 50; otherwise the character-class error if the value
    contains a character outside the letters A-Z/a-z, the whitespace
    characters, hyphen and apostrophe; otherwise the empty string. *)
Theorem validateName_whitespace_class (v : list N) :
  validateName v = validateName_spec letterWhitespaceHyphenApostrophe v.
Proof.
  unfold validateName, validateName_spec.
  rewrite isBlank_forallb.
  destruct (forallb isWhiteSpace v) eqn:Hws; [reflexivity|].
  destruct (Nat.ltb (length v) 2); [reflexivity|].
  destruct (Nat.ltb 50 (length v)); [reflexivity|].
  rewrite test_nameRegex.
  destruct v as [|c s]; [discriminate Hws|].
  rewrite negb_forallb.
  assert (E : forall l : list N,
             existsb (fun c => negb (nameClass c)) l =
             existsb (fun c => negb (letterWhitespaceHyphenApostrophe c)) l).
  { induction l as [|x l IH]; simpl; [reflexivity|].
    now rewrite nameClass_allowed, IH. }
  now rewrite E.
Qed.

(** C1 (as stated) fails on a name with a tab between two letters: the tab
    is not the space character, yet [validateName] accepts the value. *)
Lemma validateName_tab_accepted :
  validateName [97; 9; 98] = [] /\
  validateName_spec letterSpaceHyphenApostrophe [97; 9; 98] =
    lit "Name can only contain letters, spaces, hyphens, and apostrophes".
Proof. split; vm_compute; reflexivity. Qed.

(** C2 (as amended).  For every field name and string value, the router
    applied with validator kind ['date'] performs the generic required check
    and nothing else: it returns the required error when the value is empty
    or whitespace-only and the empty string otherwise. *)
Theorem validateField_date_is_required_check (f v : list N) :
  validateField f v (Some (lit "date")) = requiredCheck v.
Proof. apply validateField_default; discriminate. Qed.

(** C2 (as stated) fails on the empty value, for which the router reports an
    error, and on a non-empty value that is no date, for which it reports
    none. *)
Lemma validateField_date_empty_rejected :
  validateField (lit "dateOfBirth") [] (Some (lit "date")) =
    lit "This field is required" /\
  validateField (lit "dateOfBirth") (lit "not a date") (Some (lit "date")) =
    [].
Proof. split; vm_compute; reflexivity. Qed.

(** C7 (as amended).  For every string value, [validatePhone] returns the
    required error if the value is empty or whitespace-only; otherwise,
    after removing every whitespace character, parenthesis and hyphen from
    the value, it returns the too-short error unless the remainder is an
    optional leading plus sign followed by 10 or more digits; otherwise the
    empty string. *)
Theorem validatePhone_whitespace_removed (v : list N) :
  validatePhone v = validatePhone_spec whitespaceParenHyphen v.
Proof.
  unfold validatePhone, validatePhone_spec, removeAll.
  rewrite isBlank_forallb.
  destruct (forallb isWhiteSpace v); [reflexivity|].
  rewrite test_phoneRegex.
  now destruct (phoneShape _).
Qed.

(** C7 (as stated) fails on ten digits with a tab in the middle: removing
    only spaces, parentheses and hyphens leaves the tab, which is no digit,
    yet [validatePhone] accepts the value. *)
Lemma validatePhone_tab_removed :
  validatePhone [49; 50; 51; 52; 53; 9; 54; 55; 56; 57; 48] = [] /\
  validatePhone_spec spaceParenHyphen
    [49; 50; 51; 52; 53; 9; 54; 55; 56; 57; 48] =
    lit "Phone number must contain at least 10 digits".
Proof. split; vm_compute; reflexivity. Qed.

(** C8.  For every string value, [validateEmail] returns the required error
    if the value is empty or whitespace-only; otherwise the invalid-format
    error unless the value is one or more characters that are neither
    whitespace nor [@], then [@], then one or more such characters, then a
    dot, then one or more such characters; otherwise the empty string. *)
Theorem validateEmail_spec (v : list N) :
  (Blank v -> validateEmail v = lit "Email is required") /\
  (~ Blank v -> ~ EmailShape v ->
   validateEmail v = lit "Please enter a valid email address") /\
  (~ Blank v -> EmailShape v -> validateEmail v = []).
Proof.
  unfold validateEmail. rewrite isBlank_forallb, Blank_forallb.
  destruct (forallb isWhiteSpace v); (split; [|split]);
    try congruence; try (intros H; now destruct H).
  - intros _ Hshape. rewrite <- test_emailRegex in Hshape.
    now destruct (test emailRegex v).
  - intros _ Hshape. rewrite <- test_emailRegex in Hshape.
    now rewrite Hshape.
Qed.

(** C8 at [user@example.com]: not blank, of the required shape, valid. *)
Lemma validateEmail_spec_witness :
  ~ Blank (lit "user@example.com") /\
  EmailShape (lit "user@example.com") /\
  validateEmail (lit "user@example.com") = [].
Proof.
  assert (Hnb : ~ Blank (lit "user@example.com")).
  { intros H. apply Blank_forallb in H. discriminate H. }
  assert (Hshape : EmailShape (lit "user@example.com")).
  { exists (lit "user"), (lit "example"), (lit "com").
    split; [reflexivity|].
    repeat split; try discriminate; simpl;
      repeat first
        [ apply List.Forall_nil
        | apply List.Forall_cons; [split; [reflexivity | discriminate]|] ]. }
  split; [exact Hnb|]. split; [exact Hshape|].
  exact (proj2 (proj2 (validateEmail_spec (lit "user@example.com")))
           Hnb Hshape).
Defined.

(** C10.  The router's result does not depend on the field name: for all
    field names, every value and every validator kind, present or absent,
    the outcome is a function of the value and the kind alone. *)
Theorem validateField_ignores_fieldName
    (f1 f2 value : list N) (validation : option (list N)) :
  validateField f1 value validation = validateField f2 value validation.
Proof. reflexivity. Qed.

End Validators.

(** ** Whole-form validation *)

Section FormData.

Implicit Types (draft errs : gmap (list N) (list N)) (field : SchemaField).

Lemma or_else_nil (o : option (list N)) : or_else o [] = default [] o.
Proof. destruct o as [[|c s]|]; reflexivity. Qed.

Lemma truthy_true (s : list N) : truthy s = true <-> s <> [].
Proof.
  destruct s; simpl.
  - split; [discriminate | intros H; now destruct H].
  - split; [intros _; discriminate | reflexivity].
Qed.

Lemma not_true (s : list N) : JS.not s = true <-> s = [].
Proof.
  destruct s; cbn; split; (reflexivity || discriminate).
Qed.

Lemma validateFormData_step_fieldError draft errs field :
  validateFormData_step draft errs field =
  if truthy (fieldError draft field)
  then <[name field := fieldError draft field]> errs
  else errs.
Proof.
  unfold validateFormData_step, fieldError. now rewrite or_else_nil.
Qed.

Lemma find_by_name (l : list SchemaField) :
  NoDup (name <$> l) ->
  forall field, field ∈ l ->
    List.find (fun g => bool_decide (name g = name field)) l = Some field.
Proof.
  induction l as [|g l IH]; intros Hnd field Hin.
  - inversion Hin.
  - rewrite fmap_cons in Hnd. apply NoDup_cons in Hnd as [Hg Hnd]. simpl.
    apply elem_of_cons in Hin as [->|Hin].
    + now rewrite bool_decide_eq_true_2.
    + rewrite bool_decide_eq_false_2; [now apply IH|].
      intros E. apply Hg. rewrite E. now apply list_elem_of_fmap_2.
Qed.

Lemma find_by_name_None (l : list SchemaField) (k : list N) :
  (forall field, field ∈ l -> name field <> k) ->
  List.find (fun g => bool_decide (name g = k)) l = None.
Proof.
  induction l as [|g l IH]; intros H; simpl; [reflexivity|].
  rewrite bool_decide_eq_false_2.
  - apply IH. intros field Hin. apply H. now right.
  - apply H. now left.
Qed.

Lemma foldl_step_lookup draft (l : list SchemaField) :
  NoDup (name <$> l) ->
  forall errs k,
    foldl (validateFormData_step draft) errs l !! k =
    match List.find (fun g => bool_decide (name g = k)) l with
    | Some field =>
        if truthy (fieldError draft field)
        then Some (fieldError draft field)
        else errs !! k
    | None => errs !! k
    end.
Proof.
  induction l as [|g l IH]; intros Hnd errs k; simpl; [reflexivity|].
  rewrite fmap_cons in Hnd. apply NoDup_cons in Hnd as [Hg Hnd].
  rewrite (IH Hnd), validateFormData_step_fieldError.
  destruct (decide (name g = k)) as [E|E].
  - rewrite bool_decide_eq_true_2 by assumption.
    rewrite find_by_name_None.
    + destruct (truthy (fieldError draft g)); [|reflexivity].
      rewrite E. apply lookup_insert_eq.
    + intros field Hin E'. apply Hg. rewrite E, <- E'.
      now apply list_elem_of_fmap_2.
  - rewrite bool_decide_eq_false_2 by assumption.
    destruct (List.find _ l) as [field|];
      destruct (truthy (fieldError draft g)); try reflexivity;
      now rewrite lookup_insert_ne.
Qed.

Lemma userSchema_NoDup : NoDup (name <$> userSchema).
Proof.
  apply (bool_decide_unpack (NoDup (name <$> userSchema))).
  vm_compute. exact I.
Qed.

Lemma validateFormData_lookup draft (k : list N) :
  validateFormData draft !! k =
  match List.find (fun g => bool_decide (name g = k)) userSchema with
  | Some field =>
      if truthy (fieldError draft field)
      then Some (fieldError draft field)
      else None
  | None => None
  end.
Proof.
  unfold validateFormData.
  rewrite (foldl_step_lookup _ _ userSchema_NoDup), lookup_empty.
  reflexivity.
Qed.

Lemma foldl_step_agree draft draft' (l : list SchemaField) :
  (forall field, field ∈ l -> draft' !! name field = draft !! name field) ->
  forall errs,
    foldl (validateFormData_step draft') errs l =
    foldl (validateFormData_step draft) errs l.
Proof.
  induction l as [|g l IH]; intros H errs; simpl; [reflexivity|].
  rewrite IH by (intros field Hin; apply H; now right).
  f_equal. unfold validateFormData_step. rewrite H by now left.
  reflexivity.
Qed.

Lemma forallb_values {A : Type} (p : A -> bool) (o : gmap (list N) A) :
  forallb p (values o) = true <-> forall k v, o !! k = Some v -> p v = true.
Proof.
  unfold values. rewrite forallb_forall. split.
  - intros H k v Hkv. apply H, list_elem_of_In.
    apply list_elem_of_fmap. exists (k, v). split; [reflexivity|].
    now apply elem_of_map_to_list.
  - intros H v Hin. apply list_elem_of_In, list_elem_of_fmap in Hin.
    destruct Hin as ([k v'] & -> & Hin).
    apply elem_of_map_to_list in Hin. exact (H k v' Hin).
Qed.

Lemma isFormValid_NoErrors errs : isFormValid errs = true <-> NoErrors errs.
Proof.
  unfold isFormValid, NoErrors. rewrite forallb_values.
  split; intros H k e Hk; apply not_true; exact (H k e Hk).
Qed.

Lemma isFormValid_HasError errs : isFormValid errs = false <-> HasError errs.
Proof.
  split.
  - intros H. apply negb_true_iff in H. unfold isFormValid in H.
    rewrite negb_forallb in H. apply existsb_exists in H as (e & Hin & He).
    unfold values in Hin.
    apply list_elem_of_In, list_elem_of_fmap in Hin.
    destruct Hin as ([k e'] & -> & Hin). apply elem_of_map_to_list in Hin.
    exists k, e'. split; [assumption|].
    simpl in He. apply negb_true_iff in He. intros ->. discriminate He.
  - intros (k & e & Hk & He).
    destruct (isFormValid errs) eqn:Hv; [|reflexivity].
    apply isFormValid_NoErrors in Hv. now apply Hv in Hk.
Qed.

(** C3.  For every draft mapping, extra keys included, [validateFormData]
    goes through the schema in order, validates for each schema field the
    draft's value (the empty string when the key is absent), and returns a
    mapping whose keys are exactly the names of the schema fields whose
    validator rejects, each bound to that non-empty error message; a key
    that is no schema field name never appears in the result, and two
    drafts that agree on the schema fields have the same result. *)
Theorem validateFormData_spec draft :
  (forall k e,
     validateFormData draft !! k = Some e <->
     exists field,
       field ∈ userSchema /\ name field = k /\
       fieldError draft field = e /\ e <> []) /\
  (forall k,
     (forall field, field ∈ userSchema -> name field <> k) ->
     validateFormData draft !! k = None) /\
  (forall draft',
     (forall field,
        field ∈ userSchema -> draft' !! name field = draft !! name field) ->
     validateFormData draft' = validateFormData draft).
Proof.
  split; [|split].
  - intros k e. rewrite validateFormData_lookup. split.
    + destruct (List.find _ userSchema) as [field|] eqn:Hf; [|discriminate].
      apply find_some in Hf as [Hin Hname].
      apply bool_decide_eq_true_1 in Hname.
      destruct (truthy (fieldError draft field)) eqn:Ht; [|discriminate].
      intros [= <-]. exists field.
      split; [now apply list_elem_of_In|].
      split; [assumption|]. split; [reflexivity | now apply truthy_true].
    + intros (field & Hin & <- & <- & Hne).
      rewrite (find_by_name _ userSchema_NoDup _ Hin).
      apply truthy_true in Hne. now rewrite Hne.
  - intros k Hk. rewrite validateFormData_lookup.
    now rewrite find_by_name_None.
  - intros draft' H. now apply foldl_step_agree.
Qed.

(** C3 at a draft with an extra key and an invalid phone number: the only
    error is the one of [phone]. *)
Lemma validateFormData_spec_witness :
  let draft : gmap (list N) (list N) :=
    <[lit "nickname" := []]>
      (<[lit "firstName" := lit "Alice"]>
         (<[lit "lastName" := lit "Johnson"]>
            (<[lit "email" := lit "alice@example.com"]>
               (<[lit "phone" := lit "123"]> ∅)))) in
  validateFormData draft !! lit "nickname" = None /\
  validateFormData draft !! lit "phone" =
    Some (lit "Phone number must contain at least 10 digits").
Proof.
  intros draft. split.
  - apply (proj1 (proj2 (validateFormData_spec draft))).
    intros field Hin.
    repeat (apply elem_of_cons in Hin as [->|Hin]); try discriminate.
    inversion Hin.
  - apply (proj1 (validateFormData_spec draft)).
    exists {| name := lit "phone"; label := lit "Phone Number"; type := tel;
              required := true; validation := Some (lit "phone");
              placeholder := Some (lit "(555) 123-4567") |}.
    split; [repeat constructor|].
    split; [reflexivity|]. split; [vm_compute; reflexivity | discriminate].
Defined.

End FormData.

(** ** The form state controller *)

Section FormController.

Implicit Types (st : FormState) (field : SchemaField).

Lemma touchedFields_lookup field :
  field ∈ userSchema -> touchedFields !! name field = Some true.
Proof.
  intros Hin.
  repeat (apply elem_of_cons in Hin as [->|Hin]);
    try (vm_compute; reflexivity).
  inversion Hin.
Qed.

Lemma schemaValidation_field field :
  field ∈ userSchema -> schemaValidation (name field) = validation field.
Proof.
  intros Hin. unfold schemaValidation.
  now rewrite (find_by_name _ userSchema_NoDup _ Hin).
Qed.

Lemma isTouched_true st (n : list N) :
  isTouched st n = true <-> touched st !! n = Some true.
Proof.
  unfold isTouched. destruct (touched st !! n) as [[|]|]; simpl;
    split; congruence.
Qed.

(** C4.  For every form state, Submit runs the whole-record validation on
    the current draft.  If some field has a non-empty error, the computed
    errors are stored, every schema field is marked touched, and the submit
    handler is not invoked.  If no field has an error, the submit handler
    is invoked with the current draft. *)
Theorem handleSubmit_spec st :
  let newErrors := validateFormData (formData st) in
  (HasError newErrors ->
     errors (handleSubmit st).1 = newErrors /\
     (forall field,
        field ∈ userSchema ->
        touched (handleSubmit st).1 !! name field = Some true) /\
     (forall d, OnSubmit d ∉ (handleSubmit st).2)) /\
  (~ HasError newErrors ->
     (handleSubmit st).2 = [PreventDefault; OnSubmit (formData st)]).
Proof.
  intros newErrors. unfold handleSubmit. fold newErrors.
  destruct (isFormValid newErrors) eqn:Hv; simpl; split.
  - intros Herr. apply isFormValid_HasError in Herr. congruence.
  - reflexivity.
  - intros _. split; [reflexivity|]. split.
    + intros field Hin. apply lookup_union_Some_l.
      now apply touchedFields_lookup.
    + intros d Hd. apply elem_of_cons in Hd as [Hd|Hd]; [discriminate|].
      inversion Hd.
  - intros Hno. exfalso. now apply Hno, isFormValid_HasError.
Qed.

(** C4 at the empty form (rejected, handler not invoked) and at a fully
    valid draft (handler invoked with it). *)
Lemma handleSubmit_spec_witness :
  let valid : gmap (list N) (list N) :=
    <[lit "firstName" := lit "Alice"]>
      (<[lit "lastName" := lit "Johnson"]>
         (<[lit "email" := lit "alice@example.com"]>
            (<[lit "phone" := lit "1234567890"]> ∅))) in
  touched (handleSubmit (initialize None)).1 !! lit "email" = Some true /\
  (handleSubmit (initialize (Some valid))).2 =
    [PreventDefault; OnSubmit valid].
Proof.
  intros valid. split.
  - assert (Herr : HasError (validateFormData (formData (initialize None)))).
    { apply isFormValid_HasError. vm_compute. reflexivity. }
    destruct (proj1 (handleSubmit_spec (initialize None)) Herr)
      as (_ & Ht & _).
    apply (Ht {| name := lit "email"; label := lit "Email Address";
                 type := email; required := true;
                 validation := Some (lit "email");
                 placeholder := Some (lit "john@example.com") |}).
    repeat constructor.
  - apply (proj2 (handleSubmit_spec (initialize (Some valid)))).
    intros Herr. apply isFormValid_HasError in Herr.
    vm_compute in Herr. discriminate Herr.
Defined.

(** C5.  For every form state, the submit button's enablement condition
    holds if and only if the stored errors mapping has no non-empty entry
    and every value of the current draft is non-empty after trimming
    whitespace. *)
Theorem isFormValidNow_spec st :
  isFormValidNow st = true <->
  NoErrors (errors st) /\
  (forall k v, formData st !! k = Some v -> trim v <> []).
Proof.
  unfold isFormValidNow.
  rewrite andb_true_iff, isFormValid_NoErrors, forallb_values.
  split; intros [He Hv]; (split; [exact He|]); intros k v Hk;
    specialize (Hv k v Hk).
  - apply Nat.ltb_lt in Hv. intros E. rewrite E in Hv. simpl in Hv. lia.
  - apply Nat.ltb_lt. destruct (trim v); [congruence | simpl; lia].
Qed.

(** C9.  For every field name of the schema and every new value, OnChange
    updates that field's entry of the draft and no other, and leaves the
    touched set unchanged; if the field is touched, it recomputes and
    stores that field's error and no other error entry changes; if the
    field is not touched, the errors mapping is unchanged. *)
Theorem handleChange_frame field (value : list N) st :
  field ∈ userSchema ->
  let n := name field in
  let st' := handleChange n value st in
  formData st' !! n = Some value /\
  (forall k, k <> n -> formData st' !! k = formData st !! k) /\
  touched st' = touched st /\
  (touched st !! n = Some true ->
     errors st' !! n = Some (validateField n value (validation field)) /\
     (forall k, k <> n -> errors st' !! k = errors st !! k)) /\
  (touched st !! n <> Some true -> errors st' = errors st).
Proof.
  intros Hin n st'. subst st' n. unfold handleChange.
  rewrite <- isTouched_true, (schemaValidation_field _ Hin).
  destruct (isTouched st (name field)) eqn:Ht; simpl.
  - split; [apply lookup_insert_eq|].
    split; [intros k Hk; now apply lookup_insert_ne|].
    split; [reflexivity|]. split; [|congruence].
    intros _. split; [apply lookup_insert_eq|].
    intros k Hk. now apply lookup_insert_ne.
  - split; [apply lookup_insert_eq|].
    split; [intros k Hk; now apply lookup_insert_ne|].
    split; [reflexivity|]. split; [discriminate | reflexivity].
Qed.

(** C9 on a form whose first name has been blurred: typing a single letter
    stores the length error of that field. *)
Lemma handleChange_frame_witness :
  let st := handleBlur (lit "firstName") [] (initialize None) in
  errors (handleChange (lit "firstName") (lit "A") st) !! lit "firstName" =
    Some (lit "Name must be at least 2 characters").
Proof.
  intros st.
  pose (field := {| name := lit "firstName"; label := lit "First Name";
                    type := text; required := true;
                    validation := Some (lit "name");
                    placeholder := Some (lit "John") |}).
  assert (Hin : field ∈ userSchema) by repeat constructor.
  assert (Ht : touched st !! name field = Some true)
    by apply lookup_insert_eq.
  destruct (handleChange_frame field (lit "A") st Hin)
    as (_ & _ & _ & Herr & _).
  exact (proj1 (Herr Ht)).
Defined.

End FormController.

(** ** The create operation of the CRUD hook *)

Section CreateUser.

Implicit Types (props : UseUserCRUDProps) (h : Hook)
  (api : gmap (list N) (list N) -> Settled) (d : gmap (list N) (list N)).



Lemma callEvents_in {E : Type} (cb : option (list N -> CallbackResult))
    (e : E) :
  is_Some cb -> e ∈ callEvents cb e.
Proof. intros [f ->]. apply list_elem_of_here. Qed.

Lemma callEvents_inv {E : Type} (cb : option (list N -> CallbackResult))
    (e e' : E) :
  e' ∈ callEvents cb e -> e' = e.
Proof.
  destruct cb; simpl; intros H; [|inversion H].
  now apply list_elem_of_singleton in H.
Qed.

Lemma or_else_message (o : option (list N)) (fallback : list N) :
  (forall e, o = Some e -> e <> [] -> or_else o fallback = e) /\
  (o = None \/ o = Some [] -> or_else o fallback = fallback).
Proof.
  split.
  - intros e -> Hne. destruct e; [congruence | reflexivity].
  - intros [-> | ->]; reflexivity.
Qed.

(** What a run of [createUser] does, case by case. *)
Lemma createUser_run props api d h :
  createUser props api d h =
  let generic :=
    lit "An unexpected error occurred while creating the user" in
  let caught (prefix : list HookEvent) (err : list N) :=
    let c := callResult (onError props) generic in
    (afterCall c None, settledHook h (Some generic),
     prefix ++ SetLastError (Some generic) ::
     callEvents (onError props) (CallOnError generic) ++
     ifReturned c [ConsoleError (lit "[v0] Error creating user:") err] ++
     epilogue h) in
  match api d with
  | Resolves r =>
      match (if success r then data r else None) with
      | Some u =>
          let msg := lit "User created successfully" in
          let pre :=
            prologue h d ++
            callEvents (onSuccess props) (CallOnSuccess msg) in
          match callResult (onSuccess props) msg with
          | Normal _ =>
              (Normal (Some u), settledHook h None, pre ++ epilogue h)
          | Throw err => caught pre err
          end
      | None =>
          let msg := or_else (error r) (lit "Failed to create user") in
          let pre :=
            prologue h d ++ SetLastError (Some msg) ::
            callEvents (onError props) (CallOnError msg) in
          match callResult (onError props) msg with
          | Normal _ =>
              (Normal None, settledHook h (Some msg), pre ++ epilogue h)
          | Throw err => caught pre err
          end
      end
  | Rejects err => caught (prologue h d) err
  end.
Proof.
  unfold createUser, try_catch_finally, bind, await_createUser, setState,
    setLastError, optional_call, emit, ret, callResult, callEvents,
    afterCall, ifReturned.
  cbn [state lastError].
  destruct (api d) as [r|err];
    [destruct (if success r then data r else None) as [u|]|];
    destruct (onSuccess props) as [f|]; destruct (onError props) as [g|];
    repeat match goal with
           | |- context [match ?g ?m with Returns => _ | Throws _ => _ end] =>
               destruct (g m)
           end;
    reflexivity.
Qed.




End CreateUser.

(** * Further properties *)

(** ** More on the validators *)

Section ValidatorFacts.

Implicit Types (f v w : list N) (kind : option (list N)).

Lemma isBlank_Blank v : isBlank v = true <-> Blank v.
Proof. now rewrite isBlank_forallb, Blank_forallb. Qed.

Lemma isBlank_not_Blank v : isBlank v = false <-> ~ Blank v.
Proof.
  rewrite <- isBlank_Blank. destruct (isBlank v); split; congruence.
Qed.

Lemma validateField_blank_nonempty f v kind :
  Blank v -> validateField f v kind <> [].
Proof.
  intros Hb. apply isBlank_Blank in Hb.
  unfold validateField, validateName, validateEmail, validatePhone.
  rewrite Hb.
  destruct kind as [k|]; [|discriminate].
  repeat (destruct (bool_decide _); [discriminate|]). discriminate.
Qed.

(** X1.  Every validator kind rejects a missing value: whatever the kind,
    present, absent or unknown, the router returns a non-empty message for
    an empty or whitespace-only value. *)
Theorem validateField_rejects_blank f v kind :
  Blank v -> validateField f v kind <> [].
Proof. apply validateField_blank_nonempty. Qed.

(** A value of three spaces is rejected as an e-mail address. *)
Lemma validateField_rejects_blank_witness :
  validateField (lit "email") (lit "   ") (Some (lit "email")) <> [].
Proof.
  apply validateField_rejects_blank.
  apply Blank_forallb. reflexivity.
Defined.

(** X2.  The router's fallback: for an absent kind and for every kind other
    than ['name'], ['email'] and ['phone'], the result is the generic
    required check, which accepts every value that is not blank. *)
Theorem validateField_fallback f v kind :
  kind <> Some (lit "name") -> kind <> Some (lit "email") ->
  kind <> Some (lit "phone") ->
  validateField f v kind = requiredCheck v /\
  (~ Blank v -> validateField f v kind = []).
Proof.
  intros H1 H2 H3.
  assert (E : validateField f v kind = requiredCheck v).
  { destruct kind as [k|].
    - apply validateField_default; congruence.
    - unfold validateField, requiredCheck. now rewrite isBlank_forallb. }
  split; [exact E|]. intros Hnb. rewrite E. unfold requiredCheck.
  apply isBlank_not_Blank in Hnb. rewrite isBlank_forallb in Hnb.
  now rewrite Hnb.
Qed.

(** An unknown kind accepts any text. *)
Lemma validateField_fallback_witness :
  validateField (lit "department") (lit "R&D 42") (Some (lit "text")) = [].
Proof.
  apply (validateField_fallback (lit "department") (lit "R&D 42")
           (Some (lit "text"))); try discriminate.
  intros H. apply Blank_forallb in H. discriminate H.
Defined.

Lemma count_occ_EmailPart (s : list N) :
  EmailPart s -> count_occ N.eq_dec s 64 = 0%nat.
Proof.
  intros [_ H]. apply count_occ_not_In. intros Hin.
  rewrite Forall_forall in H. apply list_elem_of_In in Hin.
  now destruct (H _ Hin).
Qed.

Lemma EmailPart_length (s : list N) : EmailPart s -> (1 <= length s)%nat.
Proof. intros [Hne _]. destruct s; [congruence | simpl; lia]. Qed.

Lemma EmailPart_no_whitespace (s : list N) :
  EmailPart s -> Forall (fun c => isWhiteSpace c = false) s.
Proof. intros [_ H]. eapply Forall_impl; [exact H|]. now intros c [Hc _]. Qed.

(** X3.  An accepted e-mail address holds exactly one [@], a dot, no whitespace
    character at all, does not start with [@], and is at least five
    characters long. *)
Theorem validateEmail_accepted v :
  validateEmail v = [] ->
  count_occ N.eq_dec v 64 = 1%nat /\
  46 ∈ v /\
  Forall (fun c => isWhiteSpace c = false) v /\
  head v <> Some 64 /\
  (5 <= length v)%nat.
Proof.
  intros Hv. unfold validateEmail in Hv.
  destruct (isBlank v); [discriminate Hv|].
  destruct (test emailRegex v) eqn:Ht; [|discriminate Hv].
  apply test_emailRegex in Ht as (a & b & c & -> & Ha & Hb & Hc).
  split; [|split; [|split; [|split]]].
  - rewrite !count_occ_app.
    rewrite (count_occ_EmailPart a), (count_occ_EmailPart b),
      (count_occ_EmailPart c) by assumption.
    vm_compute. reflexivity.
  - rewrite !elem_of_app. right. right. right. left. apply list_elem_of_here.
  - rewrite !Forall_app.
    repeat split; try now apply EmailPart_no_whitespace.
    + repeat constructor.
    + repeat constructor.
  - destruct Ha as [Hne Ha]. destruct a as [|x a]; [congruence|].
    simpl. apply Forall_cons in Ha as [[_ Hx] _]. congruence.
  - rewrite !length_app. simpl.
    apply EmailPart_length in Ha, Hb, Hc. lia.
Qed.

(** The address [user@example.com] is accepted and has one [@]. *)
Lemma validateEmail_accepted_witness :
  count_occ N.eq_dec (lit "user@example.com") 64 = 1%nat.
Proof.
  apply (validateEmail_accepted (lit "user@example.com")).
  vm_compute. reflexivity.
Defined.

(** X4.  [validatePhone] does not see formatting: two non-blank values that
    differ only in whitespace, parentheses and hyphens get the same
    verdict. *)
Theorem validatePhone_formatting_irrelevant v w :
  ~ Blank v -> ~ Blank w ->
  removeAll phoneFormatClass v = removeAll phoneFormatClass w ->
  validatePhone v = validatePhone w.
Proof.
  intros Hv Hw E. unfold validatePhone.
  apply isBlank_not_Blank in Hv, Hw. now rewrite Hv, Hw, E.
Qed.

(** Two ways of writing the same number. *)
Lemma validatePhone_formatting_irrelevant_witness :
  validatePhone (lit "(555) 123-4567") = validatePhone (lit "555-123 4567").
Proof.
  apply validatePhone_formatting_irrelevant.
  - intros H. apply Blank_forallb in H. discriminate H.
  - intros H. apply Blank_forallb in H. discriminate H.
  - vm_compute. reflexivity.
Defined.

Lemma phoneFormatClass_not_digit (c : N) :
  phoneFormatClass c = true -> isDigit c = false.
Proof.
  unfold phoneFormatClass, isWhiteSpace, isDigit.
  rewrite !orb_true_iff, !andb_true_iff, andb_false_iff,
    !N.eqb_eq, !N.leb_le, !N.leb_gt.
  lia.
Qed.

Lemma filter_isDigit_removeAll (s : list N) :
  List.filter isDigit (removeAll phoneFormatClass s) = List.filter isDigit s.
Proof.
  unfold removeAll. induction s as [|c s IH]; simpl; [reflexivity|].
  destruct (phoneFormatClass c) eqn:Hc; simpl.
  - now rewrite (phoneFormatClass_not_digit _ Hc).
  - now rewrite IH.
Qed.

Lemma filter_all {A : Type} (p : A -> bool) (l : list A) :
  forallb p l = true -> List.filter p l = l.
Proof.
  induction l as [|x l IH]; simpl; [reflexivity|].
  intros H. apply andb_true_iff in H as [Hx Hl]. now rewrite Hx, IH.
Qed.

Lemma phoneShape_inv (s : list N) :
  phoneShape s = true ->
  exists digits,
    (s = digits \/ s = 43 :: digits) /\
    (10 <= length digits)%nat /\ forallb isDigit digits = true.
Proof.
  unfold phoneShape. intros H.
  apply andb_true_iff in H as [Hlen Hd]. apply Nat.leb_le in Hlen.
  destruct s as [|c ds]; [exists []; auto|].
  destruct (c =? 43) eqn:Hc.
  - apply N.eqb_eq in Hc as ->. exists ds. auto.
  - exists (c :: ds). auto.
Qed.

(** X5.  An accepted phone number holds at least ten digits, and nothing but
    digits, formatting characters (whitespace, parentheses, hyphens) and
    at most one plus sign. *)
Theorem validatePhone_accepted v :
  validatePhone v = [] ->
  (10 <= length (List.filter isDigit v))%nat /\
  Forall (fun c => isDigit c = true \/ c = 43 \/ phoneFormatClass c = true)
    v /\
  (count_occ N.eq_dec v 43%N <= 1)%nat.
Proof.
  intros Hv. unfold validatePhone in Hv.
  destruct (isBlank v); [discriminate Hv|].
  destruct (test phoneRegex (removeAll phoneFormatClass v)) eqn:Ht;
    [|discriminate Hv].
  rewrite test_phoneRegex in Ht.
  apply phoneShape_inv in Ht as (digits & Hcl & Hlen & Hd).
  set (cleaned := removeAll phoneFormatClass v) in *.
  assert (Hfd : List.filter isDigit cleaned = digits).
  { destruct Hcl as [-> | ->]; simpl; now rewrite filter_all. }
  assert (Hplus : count_occ N.eq_dec digits 43 = 0%nat).
  { apply count_occ_not_In. intros Hin.
    rewrite forallb_forall in Hd. specialize (Hd _ Hin). discriminate Hd. }
  split; [|split].
  - rewrite <- filter_isDigit_removeAll. fold cleaned. now rewrite Hfd.
  - apply Forall_forall. intros c Hc.
    destruct (phoneFormatClass c) eqn:Hf; [now right; right|].
    assert (Hin : In c cleaned).
    { subst cleaned. unfold removeAll. apply filter_In.
      split; [now apply list_elem_of_In | now rewrite Hf]. }
    rewrite forallb_forall in Hd.
    destruct Hcl as [E | E]; rewrite E in Hin.
    + left. now apply Hd.
    + destruct Hin as [<- | Hin]; [right; now left | left; now apply Hd].
  - assert (Hcount :
      count_occ N.eq_dec v 43 = count_occ N.eq_dec cleaned 43).
    { subst cleaned. unfold removeAll. clear.
      induction v as [|c v IH]; simpl; [reflexivity|].
      destruct (N.eq_dec c 43) as [-> | Hne]; simpl.
      - destruct (N.eq_dec 43 43); [now rewrite IH | congruence].
      - destruct (negb (phoneFormatClass c)); simpl; [|exact IH].
        destruct (N.eq_dec c 43); [congruence | exact IH]. }
    rewrite Hcount.
    destruct Hcl as [-> | ->]; simpl; rewrite Hplus; lia.
Qed.

(** The formatted number [+1 (555) 123-4567] has eleven digits. *)
Lemma validatePhone_accepted_witness :
  (10 <= length (List.filter isDigit (lit "+1 (555) 123-4567")))%nat.
Proof.
  apply (validatePhone_accepted (lit "+1 (555) 123-4567")).
  vm_compute. reflexivity.
Defined.

End ValidatorFacts.

(** ** More on whole-form validation *)

Section FormDataFacts.

Implicit Types (draft errs : gmap (list N) (list N)) (field : SchemaField).

Lemma validateFormData_lookup_field draft field :
  field ∈ userSchema ->
  validateFormData draft !! name field =
  if truthy (fieldError draft field)
  then Some (fieldError draft field) else None.
Proof.
  intros Hin.
  now rewrite validateFormData_lookup, (find_by_name _ userSchema_NoDup _ Hin).
Qed.

Lemma validateFormData_nonempty draft (k e : list N) :
  validateFormData draft !! k = Some e -> e <> [].
Proof.
  rewrite validateFormData_lookup.
  destruct (List.find _ userSchema) as [field|]; [|discriminate].
  destruct (truthy (fieldError draft field)) eqn:Ht; [|discriminate].
  intros [= <-]. now apply truthy_true.
Qed.

Lemma validateFormData_empty_iff draft :
  validateFormData draft = ∅ <->
  forall field, field ∈ userSchema -> fieldError draft field = [].
Proof.
  split.
  - intros E field Hin.
    pose proof (validateFormData_lookup_field draft field Hin) as H.
    rewrite E, lookup_empty in H.
    destruct (fieldError draft field); [reflexivity | discriminate H].
  - intros H. apply map_empty. intros k. rewrite validateFormData_lookup.
    destruct (List.find _ userSchema) as [field|] eqn:Hf; [|reflexivity].
    apply find_some in Hf as [Hin _]. apply list_elem_of_In in Hin.
    now rewrite (H field Hin).
Qed.

Lemma isFormValid_validateFormData draft :
  isFormValid (validateFormData draft) = true <-> validateFormData draft = ∅.
Proof.
  rewrite isFormValid_NoErrors. split.
  - intros Hno. apply map_empty. intros k.
    destruct (validateFormData draft !! k) as [e|] eqn:Hk; [|reflexivity].
    pose proof (validateFormData_nonempty _ _ _ Hk) as Hne.
    now rewrite (Hno _ _ Hk) in Hne.
  - intros -> k e Hk. rewrite lookup_empty in Hk. discriminate Hk.
Qed.

(** X6.  A schema field whose draft value is missing, empty or whitespace-only
    always gets an error entry, whatever the rest of the draft holds. *)
Theorem validateFormData_blank_field draft field :
  field ∈ userSchema ->
  Blank (default [] (draft !! name field)) ->
  exists e, validateFormData draft !! name field = Some e /\ e <> [].
Proof.
  intros Hin Hb. rewrite (validateFormData_lookup_field _ _ Hin).
  assert (Hne : fieldError draft field <> [])
    by now apply validateField_blank_nonempty.
  apply truthy_true in Hne as Ht. rewrite Ht. eauto.
Qed.

(** A draft without a phone entry gets an error for [phone]. *)
Lemma validateFormData_blank_field_witness :
  exists e,
    validateFormData (<[lit "firstName" := lit "Alice"]> ∅) !! lit "phone" =
      Some e /\ e <> [].
Proof.
  apply (validateFormData_blank_field
           (<[lit "firstName" := lit "Alice"]> ∅)
           {| name := lit "phone"; label := lit "Phone Number"; type := tel;
              required := true; validation := Some (lit "phone");
              placeholder := Some (lit "(555) 123-4567") |}).
  - repeat constructor.
  - apply Blank_forallb. vm_compute. reflexivity.
Defined.

(** X7.  [validateFormData] stores no empty message: its result passes
    [isFormValid] exactly when it is the empty mapping, which is exactly
    when the validator of every schema field accepts the draft's value. *)
Theorem validateFormData_valid_iff_empty draft :
  (isFormValid (validateFormData draft) = true <->
   validateFormData draft = ∅) /\
  (validateFormData draft = ∅ <->
   forall field, field ∈ userSchema -> fieldError draft field = []).
Proof.
  split; [apply isFormValid_validateFormData | apply validateFormData_empty_iff].
Qed.

(** The draft of the repository's test is valid, so the result is empty. *)
Lemma validateFormData_valid_iff_empty_witness :
  let draft : gmap (list N) (list N) :=
    <[lit "firstName" := lit "Alice"]>
      (<[lit "lastName" := lit "Johnson"]>
         (<[lit "email" := lit "alice@example.com"]>
            (<[lit "phone" := lit "1234567890"]> ∅))) in
  validateFormData draft = ∅.
Proof.
  intros draft.
  apply (proj1 (validateFormData_valid_iff_empty draft)).
  vm_compute. reflexivity.
Defined.

(** X8.  For [isFormValid] an entry holding the empty string is the same as no
    entry: storing [''] under a key gives the verdict of the mapping
    without that key. *)
Theorem isFormValid_empty_entry errs (k : list N) :
  isFormValid (<[k := []]> errs) = isFormValid (delete k errs).
Proof.
  apply eq_true_iff_eq. rewrite !isFormValid_NoErrors. unfold NoErrors.
  split; intros H k' e Hk.
  - apply lookup_delete_Some in Hk as [Hne Hk].
    apply (H k'). now rewrite lookup_insert_ne.
  - destruct (decide (k = k')) as [<-|Hne].
    + rewrite lookup_insert_eq in Hk. congruence.
    + rewrite lookup_insert_ne in Hk by assumption.
      apply (H k'). now rewrite lookup_delete_ne.
Qed.

End FormDataFacts.

(** ** More on the form state controller *)

Section FormControllerFacts.

Implicit Types (st : FormState) (field : SchemaField) (n k : list N).

Lemma foldl_insert_const_lookup {A : Type} (x : A)
    (l : list SchemaField) (acc : gmap (list N) A) k :
  foldl (fun m field => <[name field := x]> m) acc l !! k =
  if bool_decide (k ∈ name <$> l) then Some x else acc !! k.
Proof.
  revert acc. induction l as [|g l IH]; intros acc.
  - case_bool_decide as H; [|reflexivity]. now apply elem_of_nil in H.
  - cbn [foldl]. rewrite IH, fmap_cons.
    case_bool_decide as Hl; case_bool_decide as Hgl; try reflexivity.
    + exfalso. apply Hgl. now apply list_elem_of_further.
    + apply elem_of_cons in Hgl as [->|Hgl]; [|contradiction].
      apply lookup_insert_eq.
    + apply lookup_insert_ne. intros <-. apply Hgl, list_elem_of_here.
Qed.

Lemma touchedFields_true k (b : bool) :
  touchedFields !! k = Some b -> b = true.
Proof.
  unfold touchedFields. rewrite foldl_insert_const_lookup, lookup_empty.
  destruct (bool_decide _); congruence.
Qed.

Lemma or_else_Some (x : list N) : or_else (Some x) [] = x.
Proof. now destruct x. Qed.

Lemma handleSubmit_accepts st :
  validateFormData (formData st) = ∅ ->
  handleSubmit st = (st, [PreventDefault; OnSubmit (formData st)]).
Proof.
  intros E. apply isFormValid_validateFormData in E.
  unfold handleSubmit. now rewrite E.
Qed.

Lemma handleSubmit_rejects st :
  validateFormData (formData st) <> ∅ ->
  handleSubmit st =
  ({| formData := formData st;
      errors := validateFormData (formData st);
      touched := touchedFields ∪ touched st |}, [PreventDefault]).
Proof.
  intros E. unfold handleSubmit.
  destruct (isFormValid (validateFormData (formData st))) eqn:Hv;
    [|reflexivity].
  now apply isFormValid_validateFormData in Hv.
Qed.

(** X9.  The default-constructed draft holds the empty string under every
    schema field name and has no other key. *)
Theorem getEmptyFormData_lookup k :
  getEmptyFormData !! k =
  if bool_decide (k ∈ name <$> userSchema) then Some [] else None.
Proof.
  unfold getEmptyFormData.
  now rewrite foldl_insert_const_lookup, lookup_empty.
Qed.

(** X10.  OnBlur of a schema field leaves the draft unchanged, marks that field
    touched and no other, stores that field's error for the given value
    and changes no other error entry; blurring again with the same value
    changes nothing. *)
Theorem handleBlur_frame field (value : list N) st :
  field ∈ userSchema ->
  let n := name field in
  let st' := handleBlur n value st in
  formData st' = formData st /\
  touched st' !! n = Some true /\
  (forall k, k <> n -> touched st' !! k = touched st !! k) /\
  errors st' !! n = Some (validateField n value (validation field)) /\
  (forall k, k <> n -> errors st' !! k = errors st !! k) /\
  handleBlur n value st' = st'.
Proof.
  intros Hin n st'. subst n st'. unfold handleBlur. simpl.
  rewrite (schemaValidation_field _ Hin).
  split; [reflexivity|]. split; [apply lookup_insert_eq|].
  split; [intros k Hk; now apply lookup_insert_ne|].
  split; [apply lookup_insert_eq|].
  split; [intros k Hk; now apply lookup_insert_ne|].
  now rewrite !insert_insert_eq.
Qed.

(** Leaving the empty e-mail field of a fresh form stores its required
    error. *)
Lemma handleBlur_frame_witness :
  errors (handleBlur (lit "email") [] (initialize None)) !! lit "email" =
    Some (lit "Email is required").
Proof.
  pose (field := {| name := lit "email"; label := lit "Email Address";
                    type := email; required := true;
                    validation := Some (lit "email");
                    placeholder := Some (lit "john@example.com") |}).
  assert (Hin : field ∈ userSchema) by repeat constructor.
  destruct (handleBlur_frame field [] (initialize None) Hin)
    as (_ & _ & _ & Herr & _).
  exact Herr.
Defined.

(** X11.  Submit invokes the submit handler exactly when the validator of every
    schema field accepts the draft's value for it; stored errors and
    touched flags play no role. *)
Theorem handleSubmit_invokes_iff st :
  OnSubmit (formData st) ∈ (handleSubmit st).2 <->
  forall field,
    field ∈ userSchema -> fieldError (formData st) field = [].
Proof.
  rewrite <- validateFormData_empty_iff.
  destruct (decide (validateFormData (formData st) = ∅)) as [E|E].
  - rewrite (handleSubmit_accepts _ E). simpl. split; [auto|].
    intros _. apply list_elem_of_further, list_elem_of_here.
  - rewrite (handleSubmit_rejects _ E). simpl. split; [|contradiction].
    intros H. apply elem_of_cons in H as [H|H]; [discriminate H|].
    inversion H.
Qed.

(** The fresh form is not handed to the submit handler: some validator
    rejects. *)
Lemma handleSubmit_invokes_iff_witness :
  ~ (forall field,
       field ∈ userSchema ->
       fieldError (formData (initialize None)) field = []).
Proof.
  intros H. apply (handleSubmit_invokes_iff (initialize None)) in H.
  vm_compute in H.
  apply elem_of_cons in H as [H|H]; [discriminate H | inversion H].
Defined.

(** X12.  Submit is idempotent on the form state: submitting again right away
    gives the same state and the same handler invocations. *)
Theorem handleSubmit_idempotent st :
  handleSubmit (handleSubmit st).1 = handleSubmit st.
Proof.
  destruct (decide (validateFormData (formData st) = ∅)) as [E|E].
  - rewrite (handleSubmit_accepts _ E). simpl.
    now apply handleSubmit_accepts.
  - rewrite (handleSubmit_rejects _ E). simpl.
    rewrite handleSubmit_rejects by exact E. simpl.
    now rewrite (assoc_L (∪)), (idemp_L (∪)).
Qed.

(** X13.  A rejected Submit disables the submit button: the state it leaves does
    not satisfy the enablement condition. *)
Theorem handleSubmit_rejected_disables st :
  HasError (validateFormData (formData st)) ->
  isFormValidNow (handleSubmit st).1 = false.
Proof.
  intros Herr. apply isFormValid_HasError in Herr.
  unfold handleSubmit, isFormValidNow. rewrite Herr. simpl.
  now rewrite Herr.
Qed.

(** Submitting the fresh form leaves the button disabled. *)
Lemma handleSubmit_rejected_disables_witness :
  isFormValidNow (handleSubmit (initialize None)).1 = false.
Proof.
  apply handleSubmit_rejected_disables.
  apply isFormValid_HasError. vm_compute. reflexivity.
Defined.

(** X14.  If Submit invokes the submit handler, the draft it hands over holds,
    for every schema field, a value that is not blank. *)
Theorem handleSubmit_accepted_values st d field :
  OnSubmit d ∈ (handleSubmit st).2 ->
  field ∈ userSchema ->
  d = formData st /\
  exists v, d !! name field = Some v /\ ~ Blank v.
Proof.
  intros Hsub Hin.
  destruct (decide (validateFormData (formData st) = ∅)) as [E|E].
  - rewrite (handleSubmit_accepts _ E) in Hsub. simpl in Hsub.
    apply elem_of_cons in Hsub as [Hsub|Hsub]; [discriminate Hsub|].
    apply list_elem_of_singleton in Hsub. injection Hsub as ->.
    split; [reflexivity|].
    pose proof (proj1 (validateFormData_empty_iff _) E field Hin) as Hf.
    unfold fieldError in Hf.
    destruct (formData st !! name field) as [v|] eqn:Hv; simpl in Hf.
    + exists v. split; [reflexivity|]. intros Hb.
      now apply (validateField_blank_nonempty _ _ _ Hb) in Hf.
    + exfalso.
      apply (validateField_blank_nonempty (name field) [] (validation field));
        [constructor | exact Hf].
  - rewrite (handleSubmit_rejects _ E) in Hsub. simpl in Hsub.
    apply list_elem_of_singleton in Hsub. discriminate Hsub.
Qed.

(** The valid draft of the repository's test is handed over as it is. *)
Lemma handleSubmit_accepted_values_witness :
  let valid : gmap (list N) (list N) :=
    <[lit "firstName" := lit "Alice"]>
      (<[lit "lastName" := lit "Johnson"]>
         (<[lit "email" := lit "alice@example.com"]>
            (<[lit "phone" := lit "1234567890"]> ∅))) in
  exists v, valid !! lit "phone" = Some v /\ ~ Blank v.
Proof.
  intros valid.
  refine (proj2 (handleSubmit_accepted_values (initialize (Some valid)) valid
            {| name := lit "phone"; label := lit "Phone Number"; type := tel;
               required := true; validation := Some (lit "phone");
               placeholder := Some (lit "(555) 123-4567") |} _ _)).
  - rewrite handleSubmit_accepts by (vm_compute; reflexivity).
    apply list_elem_of_further, list_elem_of_here.
  - repeat constructor.
Defined.

(** X15.  No event handler of the form untouches a field: a field that is
    touched stays touched through every change, blur and submit. *)
Theorem touched_monotone st k :
  touched st !! k = Some true ->
  (forall n value, touched (handleChange n value st) !! k = Some true) /\
  (forall n value, touched (handleBlur n value st) !! k = Some true) /\
  touched (handleSubmit st).1 !! k = Some true.
Proof.
  intros Ht. split; [|split].
  - intros n value. unfold handleChange. now destruct (isTouched st n).
  - intros n value. unfold handleBlur. simpl.
    destruct (decide (n = k)) as [->|Hne];
      [apply lookup_insert_eq | now rewrite lookup_insert_ne].
  - unfold handleSubmit.
    destruct (negb (isFormValid _)); simpl; [|exact Ht].
    apply lookup_union_Some_raw.
    destruct (touchedFields !! k) as [b|] eqn:Hk; [left | now right].
    now rewrite (touchedFields_true _ _ Hk).
Qed.

(** A blurred field stays touched through a later change of another
    field. *)
Lemma touched_monotone_witness :
  touched
    (handleChange (lit "email") (lit "a")
       (handleBlur (lit "phone") [] (initialize None))) !! lit "phone" =
    Some true.
Proof.
  apply (touched_monotone (handleBlur (lit "phone") [] (initialize None))).
  apply lookup_insert_eq.
Defined.

End FormControllerFacts.

(** ** The form as a transition system: no stale errors *)

Section FormInvariant.

Implicit Types (st : FormState) (field : SchemaField).

Lemma ErrorsFresh_untouched st :
  touched st = ∅ -> ErrorsFresh st.
Proof.
  intros E field _ Ht. rewrite E, lookup_empty in Ht. discriminate Ht.
Qed.

Lemma ErrorsFresh_handleChange field0 (value : list N) st :
  field0 ∈ userSchema ->
  ErrorsFresh st -> ErrorsFresh (handleChange (name field0) value st).
Proof.
  intros Hin0 H field Hin Ht.
  unfold displayedError, fieldError, handleChange in *.
  destruct (decide (name field0 = name field)) as [E|E].
  - rewrite E in *.
    destruct (isTouched st (name field)) eqn:Hto; simpl in *.
    + rewrite !lookup_insert_eq, or_else_Some. simpl.
      now rewrite (schemaValidation_field _ Hin).
    + apply isTouched_true in Ht. congruence.
  - destruct (isTouched st (name field0)); simpl in *;
      rewrite ?lookup_insert_ne by assumption; now apply H.
Qed.

Lemma ErrorsFresh_handleBlur field0 st :
  field0 ∈ userSchema ->
  ErrorsFresh st ->
  ErrorsFresh
    (handleBlur (name field0) (renderedValue st (name field0)) st).
Proof.
  intros Hin0 H field Hin Ht.
  unfold displayedError, fieldError, handleBlur, renderedValue in *.
  simpl in *.
  destruct (decide (name field0 = name field)) as [E|E].
  - rewrite E. rewrite lookup_insert_eq, or_else_Some.
    now rewrite (schemaValidation_field _ Hin).
  - rewrite lookup_insert_ne in Ht by assumption.
    rewrite lookup_insert_ne by assumption. now apply H.
Qed.

Lemma ErrorsFresh_handleSubmit st :
  ErrorsFresh st -> ErrorsFresh (handleSubmit st).1.
Proof.
  intros H.
  destruct (decide (validateFormData (formData st) = ∅)) as [E|E].
  - now rewrite (handleSubmit_accepts _ E).
  - rewrite (handleSubmit_rejects _ E). simpl.
    intros field Hin _. unfold displayedError. simpl.
    rewrite (validateFormData_lookup_field _ _ Hin).
    destruct (fieldError (formData st) field) eqn:Hf; reflexivity.
Qed.

Lemma ErrorsFresh_step st st' :
  FormStep st st' -> ErrorsFresh st -> ErrorsFresh st'.
Proof.
  intros Hstep H. destruct Hstep.
  - now apply ErrorsFresh_handleChange.
  - now apply ErrorsFresh_handleBlur.
  - now apply ErrorsFresh_handleSubmit.
  - now apply ErrorsFresh_untouched.
  - now apply ErrorsFresh_untouched.
Qed.

Lemma ErrorsFresh_invariant st : FormReachable st -> ErrorsFresh st.
Proof.
  induction 1 as [initialData|st st' _ IH Hstep].
  - now apply ErrorsFresh_untouched.
  - exact (ErrorsFresh_step _ _ Hstep IH).
Qed.

(** X16.  In every state the form can reach, starting from any initial data and
    going through any sequence of change, blur, submit and clear events,
    the error shown for a touched schema field is the verdict of its
    validator on the field's current draft value: no touched field shows
    a stale error. *)
Theorem FormReachable_ErrorsFresh st field :
  FormReachable st ->
  field ∈ userSchema ->
  touched st !! name field = Some true ->
  displayedError st (name field) = fieldError (formData st) field.
Proof. intros Hr. now apply ErrorsFresh_invariant. Qed.

(** Blurring the empty first name and then typing one letter shows the
    length error of the new value, not the required error. *)
Lemma FormReachable_ErrorsFresh_witness :
  let field := {| name := lit "firstName"; label := lit "First Name";
                  type := text; required := true;
                  validation := Some (lit "name");
                  placeholder := Some (lit "John") |} in
  let st0 := initialize None in
  let st1 := handleBlur (name field) (renderedValue st0 (name field)) st0 in
  let st2 := handleChange (name field) (lit "A") st1 in
  displayedError st2 (name field) = fieldError (formData st2) field.
Proof.
  intros field st0 st1 st2.
  assert (Hin : field ∈ userSchema) by repeat constructor.
  apply FormReachable_ErrorsFresh; [|exact Hin|].
  - apply (ReachFormStep st1); [|exact (StepChange field _ st1 Hin)].
    apply (ReachFormStep st0); [|exact (StepBlur field st0 Hin)].
    apply ReachInitialize.
  - apply lookup_insert_eq.
Defined.

(** X17.  Once every schema field has been touched, the stored errors decide
    Submit: in a reachable state whose schema fields are all touched and
    whose stored errors are all empty, Submit invokes the submit handler
    with the draft. *)
Theorem all_touched_valid_submits st :
  FormReachable st ->
  (forall field, field ∈ userSchema -> touched st !! name field = Some true) ->
  isFormValid (errors st) = true ->
  handleSubmit st = (st, [PreventDefault; OnSubmit (formData st)]).
Proof.
  intros Hr Ht Hv. apply handleSubmit_accepts, validateFormData_empty_iff.
  intros field Hin.
  rewrite <- (ErrorsFresh_invariant _ Hr field Hin (Ht field Hin)).
  apply isFormValid_NoErrors in Hv. unfold displayedError.
  destruct (errors st !! name field) as [e|] eqn:He; [|reflexivity].
  now rewrite (Hv _ _ He).
Qed.

(** A rejected Submit of the fresh form, then valid values typed into the
    four fields: the next Submit goes through. *)
Lemma all_touched_valid_submits_witness :
  let field (n l : list N) (t : FieldType) (k p : list N) :=
    {| name := n; label := l; type := t; required := true;
       validation := Some k; placeholder := Some p |} in
  let fFirst :=
    field (lit "firstName") (lit "First Name") text (lit "name")
      (lit "John") in
  let fLast :=
    field (lit "lastName") (lit "Last Name") text (lit "name")
      (lit "Doe") in
  let fEmail :=
    field (lit "email") (lit "Email Address") email (lit "email")
      (lit "john@example.com") in
  let fPhone :=
    field (lit "phone") (lit "Phone Number") tel (lit "phone")
      (lit "(555) 123-4567") in
  let st0 := initialize None in
  let st1 := (handleSubmit st0).1 in
  let st2 := handleChange (name fFirst) (lit "Alice") st1 in
  let st3 := handleChange (name fLast) (lit "Johnson") st2 in
  let st4 := handleChange (name fEmail) (lit "alice@example.com") st3 in
  let st5 := handleChange (name fPhone) (lit "1234567890") st4 in
  handleSubmit st5 = (st5, [PreventDefault; OnSubmit (formData st5)]).
Proof.
  intros field fFirst fLast fEmail fPhone st0 st1 st2 st3 st4 st5.
  apply all_touched_valid_submits.
  - apply (ReachFormStep st4);
      [|exact (StepChange fPhone _ st4 ltac:(repeat constructor))].
    apply (ReachFormStep st3);
      [|exact (StepChange fEmail _ st3 ltac:(repeat constructor))].
    apply (ReachFormStep st2);
      [|exact (StepChange fLast _ st2 ltac:(repeat constructor))].
    apply (ReachFormStep st1);
      [|exact (StepChange fFirst _ st1 ltac:(repeat constructor))].
    apply (ReachFormStep st0); [|exact (StepSubmit st0)].
    apply ReachInitialize.
  - intros f Hin.
    repeat (apply elem_of_cons in Hin as [->|Hin]);
      try (vm_compute; reflexivity).
    inversion Hin.
  - vm_compute. reflexivity.
Defined.

End FormInvariant.

(** ** More on the CRUD hook *)

Section CrudFacts.

Implicit Types (props : UseUserCRUDProps) (h : Hook) (id : list N)
  (d : gmap (list N) (list N)) (r : ApiResponse).

Lemma failureMessage_or_else r (fallback : list N) :
  or_else (error r) fallback = failureMessage r fallback.
Proof. unfold failureMessage. now destruct (error r) as [[|c e]|]. Qed.




(** What a run of [updateUser] does, case by case. *)
Lemma updateUser_run props api id d h :
  updateUser props api id d h =
  let generic :=
    lit "An unexpected error occurred while updating the user" in
  let fin := [CSetState (state (updatedHook h None))] in
  let caught (prefix : list CrudEvent) (err : list N) :=
    let c := callResult (onError props) generic in
    (afterCall c None, updatedHook h (Some generic),
     prefix ++ CSetLastError (Some generic) ::
     callEvents (onError props) (COnError generic) ++
     ifReturned c [CConsoleError (lit "[v0] Error updating user:") err] ++
     fin) in
  match api id d with
  | Resolves r =>
      match (if success r then data r else None) with
      | Some u =>
          let msg := lit "User updated successfully" in
          let pre :=
            updatePrologue h id d ++
            callEvents (onSuccess props) (COnSuccess msg) in
          match callResult (onSuccess props) msg with
          | Normal _ => (Normal (Some u), updatedHook h None, pre ++ fin)
          | Throw err => caught pre err
          end
      | None =>
          let msg := failureMessage r (lit "Failed to update user") in
          let pre :=
            updatePrologue h id d ++ CSetLastError (Some msg) ::
            callEvents (onError props) (COnError msg) in
          match callResult (onError props) msg with
          | Normal _ => (Normal None, updatedHook h (Some msg), pre ++ fin)
          | Throw err => caught pre err
          end
      end
  | Rejects err => caught (updatePrologue h id d) err
  end.
Proof.
  unfold_crud. unfold callResult, callEvents, afterCall, ifReturned.
  destruct (api id d) as [r|err];
    [destruct (if success r then data r else None) as [u|];
     rewrite <- ?(failureMessage_or_else r)|];
    destruct (onSuccess props) as [f|]; destruct (onError props) as [g|];
    repeat match goal with
           | |- context [match ?g ?m with Returns => _ | Throws _ => _ end] =>
               destruct (g m)
           end;
    reflexivity.
Qed.

(** What a run of [deleteUser] does, case by case. *)
Lemma deleteUser_run props api id h :
  deleteUser props api id h =
  let generic :=
    lit "An unexpected error occurred while deleting the user" in
  let fin := [CSetState (state (deletedHook h id None))] in
  let caught (prefix : list CrudEvent) (err : list N) :=
    let c := callResult (onError props) generic in
    (afterCall c false, deletedHook h id (Some generic),
     prefix ++ CSetLastError (Some generic) ::
     callEvents (onError props) (COnError generic) ++
     ifReturned c [CConsoleError (lit "[v0] Error deleting user:") err] ++
     fin) in
  match api id with
  | Resolves r =>
      if success r then
        let msg := lit "User deleted successfully" in
        let pre :=
          deletePrologue h id ++
          callEvents (onSuccess props) (COnSuccess msg) in
        match callResult (onSuccess props) msg with
        | Normal _ => (Normal true, deletedHook h id None, pre ++ fin)
        | Throw err => caught pre err
        end
      else
        let msg := failureMessage r (lit "Failed to delete user") in
        let pre :=
          deletePrologue h id ++ CSetLastError (Some msg) ::
          callEvents (onError props) (COnError msg) in
        match callResult (onError props) msg with
        | Normal _ => (Normal false, deletedHook h id (Some msg), pre ++ fin)
        | Throw err => caught pre err
        end
  | Rejects err => caught (deletePrologue h id) err
  end.
Proof.
  unfold_crud. unfold callResult, callEvents, afterCall, ifReturned.
  destruct (api id) as [r|err];
    [destruct (success r); rewrite <- ?(failureMessage_or_else r)|];
    destruct (onSuccess props) as [f|]; destruct (onError props) as [g|];
    repeat match goal with
           | |- context [match ?g ?m with Returns => _ | Throws _ => _ end] =>
               destruct (g m)
           end;
    reflexivity.
Qed.







(** X20.  Each operation of the hook changes only its own in-flight flag: a run
    of [createUser] leaves [updating] and [deleting] as they were, a run
    of [updateUser] leaves [creating] and [deleting], and a run of
    [deleteUser] leaves [creating] and [updating]; none changes [list]. *)
Theorem crud_flags_independent props h d id
    (apiC : gmap (list N) (list N) -> Settled)
    (apiU : list N -> gmap (list N) (list N) -> Settled)
    (apiD : list N -> Settled) :
  (let s' := state (createUser props apiC d h).1.2 in
   updating s' = updating (state h) /\ deleting s' = deleting (state h) /\
   list_ s' = list_ (state h)) /\
  (let s' := state (updateUser props apiU id d h).1.2 in
   creating s' = creating (state h) /\ deleting s' = deleting (state h) /\
   list_ s' = list_ (state h)) /\
  (let s' := state (deleteUser props apiD id h).1.2 in
   creating s' = creating (state h) /\ updating s' = updating (state h) /\
   list_ s' = list_ (state h)).
Proof.
  rewrite createUser_run, updateUser_run, deleteUser_run. cbv zeta.
  split; [|split].
  - destruct (apiC d) as [r|err];
      [destruct (if success r then data r else None);
       destruct (callResult _ _)|];
      repeat split.
  - destruct (apiU id d) as [r|err];
      [destruct (if success r then data r else None);
       destruct (callResult _ _)|];
      repeat split.
  - destruct (apiD id) as [r|err];
      [destruct (success r); destruct (callResult _ _)|];
      repeat split.
Qed.






End CrudFacts.

(** ** Loading the user list *)

Section FetchUsers.

Lemma fetchUsers_run (api : UseUsers.Settled) (s : UseUsers.State) :
  UseUsers.fetchUsers api s =
  let loaded (l : list User) (e : option (list N)) :=
    {| UseUsers.users := l; UseUsers.isLoading := false;
       UseUsers.loadError := e |} in
  let start :=
    [UseUsers.SetIsLoading true; UseUsers.SetError None;
     UseUsers.ApiGetUsers] in
  match api with
  | UseUsers.Resolves r =>
      match (if UseUsers.success r then UseUsers.data r else None) with
      | Some l =>
          (Normal tt, loaded l None,
           start ++ [UseUsers.SetUsers l; UseUsers.SetIsLoading false])
      | None =>
          let msg := or_else (UseUsers.error r) (lit "Failed to load users") in
          (Normal tt, loaded (UseUsers.users s) (Some msg),
           start ++ [UseUsers.SetError (Some msg);
                     UseUsers.SetIsLoading false])
      end
  | UseUsers.Rejects err =>
      let msg := lit "An unexpected error occurred while loading users" in
      (Normal tt, loaded (UseUsers.users s) (Some msg),
       start ++ [UseUsers.SetError (Some msg);
                 UseUsers.ConsoleError (lit "[v0] Error fetching users:") err;
                 UseUsers.SetIsLoading false])
  end.
Proof.
  unfold UseUsers.fetchUsers, UseUsers.setIsLoading, UseUsers.setError,
    UseUsers.setUsers, UseUsers.settle, ptry, pbind, pawait, pmodify,
    pemit, pret.
  destruct api as [r|err]; [|reflexivity].
  now destruct (if UseUsers.success r then UseUsers.data r else None).
Qed.

(** X23.  [fetchUsers] for every backend outcome: it sets the loading flag and
    clears the error before the backend is called, ends with the loading
    flag false, and lets no exception out.  With success and a list,
    empty or not, the list replaces the users and the error stays null;
    on a failure response or a rejection the users are left as they were
    and the error holds the backend's message, the fallback, or the
    generic loading message. *)
Theorem fetchUsers_spec (api : UseUsers.Settled) (s : UseUsers.State) :
  let run := UseUsers.fetchUsers api s in
  (exists rest,
     run.2 = UseUsers.SetIsLoading true :: UseUsers.SetError None ::
             UseUsers.ApiGetUsers :: rest) /\
  UseUsers.isLoading run.1.2 = false /\
  run.1.1 = Normal tt /\
  (forall r l,
     api = UseUsers.Resolves r ->
     UseUsers.success r = true -> UseUsers.data r = Some l ->
     UseUsers.users run.1.2 = l /\ UseUsers.loadError run.1.2 = None) /\
  (forall r,
     api = UseUsers.Resolves r ->
     UseUsers.success r = false \/ UseUsers.data r = None ->
     UseUsers.users run.1.2 = UseUsers.users s /\
     exists msg,
       UseUsers.loadError run.1.2 = Some msg /\
       (forall e, UseUsers.error r = Some e -> e <> [] -> msg = e) /\
       (UseUsers.error r = None \/ UseUsers.error r = Some [] ->
        msg = lit "Failed to load users")) /\
  (forall err,
     api = UseUsers.Rejects err ->
     UseUsers.users run.1.2 = UseUsers.users s /\
     UseUsers.loadError run.1.2 =
       Some (lit "An unexpected error occurred while loading users")).
Proof.
  intros run. subst run. rewrite fetchUsers_run. cbv zeta.
  destruct api as [r|err].
  - destruct (if UseUsers.success r then UseUsers.data r else None)
      as [l0|] eqn:Hok; simpl;
      (split; [eexists; reflexivity|]); (do 2 (split; [reflexivity|]));
      (split; [|split; [|discriminate]]).
    + intros r' l [= <-] Hs Hd. rewrite Hs, Hd in Hok.
      injection Hok as ->. now split.
    + intros r' [= <-] [Hs|Hd];
        [rewrite Hs in Hok | destruct (UseUsers.success r);
                             rewrite ?Hd in Hok];
        discriminate Hok.
    + intros r' l [= <-] Hs Hd. rewrite Hs, Hd in Hok. discriminate Hok.
    + intros r' [= <-] _. split; [reflexivity|]. eexists.
      split; [reflexivity|]. apply or_else_message.
  - simpl. split; [eexists; reflexivity|]. do 2 (split; [reflexivity|]).
    split; [discriminate|]. split; [discriminate|].
    intros err' [= <-]. now split.
Qed.

(** A failed reload keeps the list that was loaded before. *)
Lemma fetchUsers_spec_witness :
  let u := {| user_id := lit "1"; user_firstName := lit "Alice";
              user_lastName := lit "Johnson";
              user_email := lit "alice@example.com";
              user_phone := lit "1234567890";
              user_createdAt := lit "2024-01-01T00:00:00.000Z" |} in
  let s := {| UseUsers.users := [u]; UseUsers.isLoading := false;
              UseUsers.loadError := None |} in
  let run := UseUsers.fetchUsers (UseUsers.Rejects (lit "offline")) s in
  UseUsers.users run.1.2 = [u] /\
  UseUsers.loadError run.1.2 =
    Some (lit "An unexpected error occurred while loading users").
Proof.
  intros u s run.
  destruct (fetchUsers_spec (UseUsers.Rejects (lit "offline")) s)
    as (_ & _ & _ & _ & _ & Hrej).
  exact (Hrej (lit "offline") eq_refl).
Defined.

End FetchUsers.

(** ** The mode machine of the application *)

Section AppFacts.

Lemma AppStep_edit_iff (s s' : AppState * Hook) :
  AppStep s s' ->
  (mode s.1 = mode_edit <-> is_Some (editingUser s.1)) ->
  (mode s'.1 = mode_edit <-> is_Some (editingUser s'.1)).
Proof.
  intros Hstep H. destruct Hstep; simpl in *; try exact H;
    split; try discriminate; eauto; intros [u Hu]; discriminate Hu.
Qed.

(** X24.  In every state the application can reach through its handlers (start
    create, start edit, cancel, the success callback, opening and closing
    the delete dialog), the mode is ['edit'] exactly when a user being
    edited is stored. *)
Theorem AppReachable_edit_iff (a : AppState) (h : Hook) :
  AppReachable (a, h) ->
  (mode a = mode_edit <-> is_Some (editingUser a)).
Proof.
  intros Hr. change a with (a, h).1.
  induction Hr as [h0|s s' _ IH Hstep].
  - simpl. split; [discriminate | intros [u Hu]; discriminate Hu].
  - exact (AppStep_edit_iff _ _ Hstep IH).
Qed.

(** Starting an edit and then a successful update: back in list mode, no
    user being edited is left behind. *)
Lemma AppReachable_edit_iff_witness :
  let u := {| user_id := lit "1"; user_firstName := lit "Alice";
              user_lastName := lit "Johnson";
              user_email := lit "alice@example.com";
              user_phone := lit "1234567890";
              user_createdAt := lit "2024-01-01T00:00:00.000Z" |} in
  let s1 := handleStartEdit u initialApp initialHook in
  let a2 := appOnSuccess s1.1 in
  mode a2 = mode_edit <-> is_Some (editingUser a2).
Proof.
  intros u s1 a2.
  apply (AppReachable_edit_iff a2 initialHook).
  apply (ReachStep s1); [|exact (StepOnSuccess s1.1 s1.2 initialHook)].
  apply (ReachStep (initialApp, initialHook));
    [|exact (StepStartEdit u initialApp initialHook)].
  apply ReachInitial.
Defined.

End AppFacts.
